(** * gmt.clib.utils: locating, loading and validating libgmt, and
      marshalling arrays and grids for it

    A shallow embedding of [gmt/clib/utils.py].  Python exceptions are an
    inductive type carried by a small error monad; the process environment,
    [sys.platform] and the dynamic loader are an explicit [World]; numpy
    arrays are strided views over buffers that live in an explicit memory,
    so that "same array" and "fresh copy" are statements about buffers. *)

From Stdlib Require Import Floats.
From Stdlib Require Import String Ascii List ZArith Lia.
From stdpp Require Import base option list sorting gmap strings pretty.

Local Open Scope Z_scope.
Set Warnings "-inexact-float".

(** ** Exceptions and the error monad *)

(** The four typed error kinds of [gmt.exceptions], and the builtin
    exceptions that the modelled code can meet. *)
Inductive exn : Type :=
| GMTOSError (msg : string)
| GMTCLibError (msg : string)
| GMTCLibNotFoundError (msg : string)
| GMTInvalidInput (msg : string)
| OSError (msg : string)
| IndexError (msg : string)
| KeyError (key : string)
| ValueError (msg : string).

(** [str(err)] *)
Definition str_exn (e : exn) : string :=
  match e with
  | GMTOSError m | GMTCLibError m | GMTCLibNotFoundError m
  | GMTInvalidInput m | OSError m | IndexError m | KeyError m
  | ValueError m => m
  end.

(** The error kinds the binding raises on purpose. *)
Definition is_typed_error (e : exn) : bool :=
  match e with
  | GMTOSError _ | GMTCLibError _ | GMTCLibNotFoundError _
  | GMTInvalidInput _ => true
  | _ => false
  end.

(** Modelled from the spec: the class hierarchy of [gmt/exceptions.py],
    which is not among the sources.  The spec lists the four GMT errors as
    kinds of their own, so none of them is an [OSError]; this is what
    [except OSError] tests. *)
Definition isinstance_OSError (e : exn) : bool :=
  match e with
  | OSError _ => true
  | _ => false
  end.

Inductive result (A : Type) : Type :=
| Return (a : A)
| Raise (e : exn).
Arguments Return {A} a.
Arguments Raise {A} e.

#[global] Instance result_ret : MRet result := fun A a => Return a.

#[global] Instance result_bind : MBind result := fun A B k r =>
  match r with
  | Return a => k a
  | Raise e => Raise e
  end.

(** ** Strings *)

Definition dquote : string := String "034"%char EmptyString.
Definition newline : string := String "010"%char EmptyString.

(** [sep.join(parts)] *)
Fixpoint str_join (sep : string) (parts : list string) : string :=
  match parts with
  | [] => EmptyString
  | [p] => p
  | p :: rest => p +:+ sep +:+ str_join sep rest
  end.

(** [s.startswith(p)] *)
Definition startswith (s p : string) : bool := String.prefix p s.

(** [s.endswith(p)] *)
Definition endswith (s p : string) : bool :=
  String.prefix (String.rev p) (String.rev s).

(** [needle in hay] *)
Fixpoint str_contains (hay needle : string) : bool :=
  String.prefix needle hay ||
  match hay with
  | EmptyString => false
  | String _ rest => str_contains rest needle
  end.

(** [posixpath.join(a, b)], the [os.path.join] of the two supported
    platforms. *)
Definition os_path_join (a b : string) : string :=
  if startswith b "/" then b
  else if String.eqb a EmptyString || endswith a "/" then a +:+ b
  else a +:+ "/" +:+ b.

(** ** The world outside the interpreter *)

(** A loaded shared library, as [hasattr] sees it: the symbols it exports. *)
Record CDLL : Type := { exports : gset string }.

Definition hasattr (lib : CDLL) (name : string) : bool :=
  bool_decide (name ∈ exports lib).

Record World : Type := {
  sys_platform : string;
  os_environ : gmap string string;
  (** the dynamic loader: the error text of a failed open, or the handle *)
  dlopen : string -> string + CDLL
}.

(** [ctypes.CDLL(path)] *)
Definition ctypes_CDLL (w : World) (path : string) : result CDLL :=
  match dlopen w path with
  | inl errtext => Raise (OSError errtext)
  | inr lib => Return lib
  end.

(** ** Platform Resolver *)

Definition clib_extension (w : World) (os_name : option string)
  : result string :=
  let os_name' :=
    match os_name with
    | None => sys_platform w
    | Some s => s
    end in
  if startswith os_name' "linux" then Return "so"
  else if String.eqb os_name' "darwin" then Return "dylib"
  else Raise (GMTOSError
         ("Operating system " +:+ dquote +:+ sys_platform w +:+ dquote
          +:+ " not supported.")).

(** ** Library Locator *)

Definition get_clib_path (w : World) (env : option (gmap string string))
  : result string :=
  ext ← clib_extension w None;
  let libname := str_join "." ["libgmt"; ext] in
  let env' :=
    match env with
    | None => os_environ w
    | Some e => e
    end in
  match env' !! "GMT_LIBRARY_PATH" with
  | Some dir => Return (os_path_join dir libname)
  | None => Return libname
  end.

(** ** Symbol Validator *)

Definition functions : list string :=
  ["Create_Session"; "Get_Enum"; "Call_Module"; "Destroy_Session"].

Definition missing_msg (func : string) : string :=
  str_join " " ["Error loading libgmt.";
                "Couldn't access function GMT_" +:+ func +:+ "."].

(** The body of [for func in functions]. *)
Fixpoint check_loop (libgmt : CDLL) (funcs : list string) : result unit :=
  match funcs with
  | [] => Return tt
  | func :: rest =>
      if negb (hasattr libgmt ("GMT_" +:+ func))
      then Raise (GMTCLibError (missing_msg func))
      else check_loop libgmt rest
  end.

Definition check_libgmt (libgmt : CDLL) : result unit :=
  check_loop libgmt functions.

(** ** Library Loader *)

Definition not_found_msg (libpath : string) (err : exn) : string :=
  str_join newline
    ["Couldn't find the GMT shared library '" +:+ libpath +:+ "'.";
     "Original error message:";
     str_exn err].

Section Loader.
(** What [except OSError] catches.  The exception classes are declared
    outside the sources, so the loader is stated for any hierarchy. *)
Variable catches_OSError : exn -> bool.

Definition load_libgmt (w : World) (env : option (gmap string string))
  : result CDLL :=
  libpath ← get_clib_path w env;
  match (libgmt ← ctypes_CDLL w libpath;
         _ ← check_libgmt libgmt;
         Return libgmt) with
  | Return libgmt => Return libgmt
  | Raise err =>
      if catches_OSError err
      then Raise (GMTCLibNotFoundError (not_found_msg libpath err))
      else Raise err
  end.
End Loader.

(** ** numpy arrays

    An [ndarray] is a view: the buffer it reads, where it starts in it, its
    shape and its strides (counted in elements, not bytes).  Buffers live
    in a memory, so two views of one [base] share their data. *)

Record ndarray : Type := {
  base : nat;
  offset : Z;
  shape : list nat;
  strides : list Z
}.

Section NDArray.
Context {A : Type}.
Implicit Types (mem : gmap nat (list A)) (a : ndarray).

(** Position in the buffer of the element at index [idx], relative to the
    start of the view. *)
Definition flat_pos (sts : list Z) (idx : list nat) : Z :=
  foldr Z.add 0 (zip_with (fun i st => Z.of_nat i * st) idx sts).

(** [a[idx]] *)
Definition getitem mem a (idx : list nat) : option A :=
  buf ← mem !! base a;
  let p := offset a + flat_pos (strides a) idx in
  if decide (0 <= p) then buf !! Z.to_nat p else None.

(** [np.ndindex] over the shape: every index, the last axis varying fastest. *)
Fixpoint ndindex (shp : list nat) : list (list nat) :=
  match shp with
  | [] => [[]]
  | d :: rest => i ← seq 0 d; cons i <$> ndindex rest
  end.

(** The elements of [a] in row-major order. *)
Definition ravel mem a : list (option A) :=
  getitem mem a <$> ndindex (shape a).

(** Every index of the view reads an element of its buffer; numpy builds
    no other arrays. *)
Definition valid mem a : bool :=
  forallb (fun idx => bool_decide (is_Some (getitem mem a idx)))
          (ndindex (shape a)).

(** numpy's [_UpdateContiguousFlags], from the last axis to the first: an
    axis of length 0 makes the array contiguous by definition, an axis of
    length 1 is skipped, any other axis must have the stride [sd] of the
    axes after it.  [None] stands for "an axis of length 0 was met". *)
Definition contig_step (ax : nat * Z) (st : option (Z * bool))
  : option (Z * bool) :=
  match st with
  | None => None
  | Some (sd, ok) =>
      let '(dim, stride) := ax in
      if (dim =? 0)%nat then None
      else if (dim =? 1)%nat then Some (sd, ok)
      else Some (sd * Z.of_nat dim, ok && (stride =? sd))
  end.

(** [a.flags.c_contiguous] *)
Definition c_contiguous a : bool :=
  match foldr contig_step (Some (1, true)) (zip (shape a) (strides a)) with
  | None => true
  | Some (_, ok) => ok
  end.

(** Number of elements of an array of shape [shp]. *)
Definition size_of (shp : list nat) : nat := foldr Nat.mul 1%nat shp.

(** Row-major strides of a freshly allocated array. *)
Fixpoint c_strides (shp : list nat) : list Z :=
  match shp with
  | [] => []
  | _ :: rest => Z.of_nat (size_of rest) :: c_strides rest
  end.

(** [a.copy(order='C')]: a new buffer holding the elements of [a] in
    row-major order, and the view of it. *)
Definition copy_C mem a : gmap nat (list A) * ndarray :=
  let elems := omap (getitem mem a) (ndindex (shape a)) in
  let new := fresh (dom mem) in
  (<[new := elems]> mem,
   {| base := new; offset := 0; shape := shape a;
      strides := c_strides (shape a) |}).

Definition as_c_contiguous mem (array : ndarray)
  : gmap nat (list A) * ndarray :=
  if negb (c_contiguous array) then copy_C mem array
  else (mem, array).

(** *** Array Normalizer *)

(** The vector-likes [vectors_to_arrays] accepts: a [pandas.Series] (with
    the array it wraps), an array, or a Python sequence.  numpy converts
    the items of a sequence to one dtype; [items] are the elements that
    conversion gives, and the conversion itself is numpy's and is not
    modelled. *)
Inductive vector : Type :=
| Series (vals : ndarray)
| Array (arr : ndarray)
| Sequence (items : list A).

(** [np.asarray] of a sequence allocates a one-dimensional array of its
    converted items. *)
Definition asarray_seq mem (items : list A) : gmap nat (list A) * ndarray :=
  let new := fresh (dom mem) in
  (<[new := items]> mem,
   {| base := new; offset := 0; shape := [length items];
      strides := [1] |}).

Definition _as_array mem (v : vector) : gmap nat (list A) * ndarray :=
  match v with
  | Series vals => (mem, vals)
  | Array arr => (mem, arr)
  | Sequence items => asarray_seq mem items
  end.

Fixpoint vectors_to_arrays mem (vectors : list vector)
  : gmap nat (list A) * list ndarray :=
  match vectors with
  | [] => (mem, [])
  | i :: rest =>
      let '(mem1, arr) := _as_array mem i in
      let '(mem2, arr') := as_c_contiguous mem1 arr in
      let '(mem3, arrays) := vectors_to_arrays mem2 rest in
      (mem3, arr' :: arrays)
  end.

End NDArray.

(** ** float64 arrays of coordinates

    A coordinate array is one-dimensional and only read, so it is the list
    of its values. *)

Definition rtol : float := 1e-5%float.
Definition atol : float := 1e-8%float.

(** numpy's [within_tol(x, y, atol, rtol)] *)
Definition within_tol (x y : float) : bool :=
  (abs (x - y) <=? atol + rtol * abs y)%float.

(** One element of [np.isclose(a, b)] with the default tolerances and
    [equal_nan=False]: finite pairs are compared within the tolerance, the
    others with [==]. *)
Definition isclose (x y : float) : bool :=
  if is_finite x && is_finite y then within_tol x y else (x =? y)%float.

(** [np.allclose(a, b)] for an array [a] and a scalar [b] *)
Definition allclose (a : list float) (b : float) : bool :=
  forallb (fun x => isclose x b) a.

(** [coord[1:] - coord[0:-1]] *)
Definition coord_diffs (coord : list float) : list float :=
  zip_with sub (drop 1 coord) (take (length coord - 1) coord).

(** The same expression on a coordinate array of dtype [uint8], its
    values as integers in [0, 255]: numpy subtracts in the dtype of the
    array, modulo 256. *)
Definition coord_diffs_uint8 (coord : list Z) : list Z :=
  zip_with (fun x y => (x - y) mod 256)
           (drop 1 coord) (take (length coord - 1) coord).

(** [arr[0]] *)
Definition item0 (arr : list float) : result float :=
  match arr with
  | x :: _ => Return x
  | [] => Raise (IndexError
            "index 0 is out of bounds for axis 0 with size 0")
  end.

(** The reductions [np.minimum.reduce] and [np.maximum.reduce]; a NaN in
    the accumulator stays. *)
Definition fmin (acc x : float) : float :=
  if (acc <=? x)%float || is_nan acc then acc else x.

Definition fmax (acc x : float) : float :=
  if (x <=? acc)%float || is_nan acc then acc else x.

(** [coord.min()] and [coord.max()] *)
Definition np_min (coord : list float) : result float :=
  match coord with
  | x :: rest => Return (foldl fmin x rest)
  | [] => Raise (ValueError
            "zero-size array to reduction operation minimum which has no identity")
  end.

Definition np_max (coord : list float) : result float :=
  match coord with
  | x :: rest => Return (foldl fmax x rest)
  | [] => Raise (ValueError
            "zero-size array to reduction operation maximum which has no identity")
  end.

(** ** Grid Extractor *)

(** An [xarray.DataArray]: the names of its dimensions, the coordinate
    array of each, and its values. *)
Record DataArray : Type := {
  dims : list string;
  coords : gmap string (list float);
  values : ndarray
}.

(** [grid.coords[dim].values] *)
Definition coord_values (grid : DataArray) (dim : string)
  : result (list float) :=
  match coords grid !! dim with
  | Some coord => Return coord
  | None => Raise (KeyError dim)
  end.

Definition bad_dims_msg (n : nat) : string :=
  "Invalid number of grid dimensions '" +:+ pretty n +:+ "'. Must be 2.".

Definition irregular_msg (dim : string) : string :=
  "Grid appears to have irregular spacing in the '" +:+ dim
  +:+ "' dimension.".

(** The body of [for dim in grid.dims[::-1]], with the two lists it
    extends. *)
Fixpoint extract_loop (grid : DataArray) (ds : list string)
    (region inc : list float) : result (list float * list float) :=
  match ds with
  | [] => Return (region, inc)
  | dim :: rest =>
      coord ← coord_values grid dim;
      let coord_incs := coord_diffs coord in
      coord_inc ← item0 coord_incs;
      if negb (allclose coord_incs coord_inc)
      then Raise (GMTInvalidInput (irregular_msg dim))
      else
        lo ← np_min coord;
        hi ← np_max coord;
        extract_loop grid rest (region ++ [lo; hi]) (inc ++ [coord_inc])
  end.

Section Grid.
Context {A : Type}.

(** [grid.values[:]] is a view of [grid.values] with the same buffer,
    shape and strides, so it is the same [ndarray] here. *)
Definition dataarray_to_matrix (mem : gmap nat (list A)) (grid : DataArray)
  : result (gmap nat (list A) * (ndarray * list float * list float)) :=
  if negb (length (dims grid) =? 2)%nat
  then Raise (GMTInvalidInput (bad_dims_msg (length (dims grid))))
  else
    '(region, inc) ← extract_loop grid (rev (dims grid)) [] [];
    let '(mem', matrix) := as_c_contiguous mem (values grid) in
    Return (mem', (matrix, region, inc)).

End Grid.

(** ** Keyword arguments as ctypes arrays *)

Section Ctypes.
Context {P A : Type}.

(** A ctypes array type [ctype * n]: the zero of [ctype], the conversion
    the setter of [ctype] applies to a Python value it accepts, and [n]. *)
Record array_type : Type := {
  elt_zero : A;
  elt_set : P -> A;
  arr_length : nat
}.

(** [dtype] called on the unpacked arguments: the items of a new array
    are zero, then the initializers are converted and stored one by one
    from index 0; storing beyond the last index fails. *)
Definition array_new (dtype : array_type) (args : list P) : result (list A) :=
  if (length args <=? arr_length dtype)%nat
  then Return ((elt_set dtype <$> args)
               ++ replicate (arr_length dtype - length args) (elt_zero dtype))
  else Raise (IndexError "invalid index").

(** The values of [kwargs] are the iterables the function can unpack. *)
Definition kwargs_to_ctypes_array (argument : string)
    (kwargs : gmap string (list P)) (dtype : array_type)
  : result (option (list A)) :=
  match kwargs !! argument with
  | Some value =>
      arr ← array_new dtype value;
      Return (Some arr)
  | None => Return None
  end.

End Ctypes.

(** The setter of [ctypes.c_int] keeps the low 32 bits of a Python
    integer, read in two's complement. *)
Definition c_int_set (z : Z) : Z := (z + 2 ^ 31) mod 2 ^ 32 - 2 ^ 31.

(** [ctypes.c_int * n] *)
Definition c_int_array (n : nat) : array_type :=
  {| elt_zero := 0; elt_set := c_int_set; arr_length := n |}.


(** ** Reporting on the loaded library ([gmt/__init__.py]) *)

(** [s * n] *)
Definition str_repeat (s : string) (n : Z) : string :=
  Nat.iter (Z.to_nat n) (fun acc => s +:+ acc) EmptyString.

(** The header line of [print_libgmt_info] on a terminal of [columns]
    columns. *)
Definition info_header (columns : Z) : string :=
  let title := "Currently loaded libgmt" in
  let left := (columns - Z.of_nat (String.length title) - 2) `div` 2 in
  let right :=
    left + (columns - (2 * left + Z.of_nat (String.length title) + 2)) in
  str_join " " [str_repeat "=" left; title; str_repeat "=" right].

(** [sorted(keys)] *)
Definition sorted (keys : list string) : list string :=
  merge_sort String.le keys.

(** The body of [for key in sorted(lib.info)]. *)
Fixpoint info_loop (info : gmap string string) (keys : list string)
    (lines : list string) : result (list string) :=
  match keys with
  | [] => Return lines
  | key :: rest =>
      value ← match info !! key with
              | Some v => Return v
              | None => Raise (KeyError key)
              end;
      info_loop info rest (lines ++ [key +:+ ": " +:+ value])
  end.

(** [print_libgmt_info], given the width of the terminal and the [info]
    dictionary of the session it opens: what it prints. *)
Definition print_libgmt_info (columns : Z) (info : gmap string string)
  : result string :=
  lines ← info_loop info (sorted (map_to_list info).*1) [info_header columns];
  Return (str_join newline lines).

(** The arguments [test] passes to [pytest.main]. *)
Definition test_args (doctest verbose coverage figures : bool)
  : list string :=
  let args := [] in
  let args := if verbose then args ++ ["-vv"] else args in
  let args :=
    if coverage
    then (args ++ ["--cov=gmt"]) ++ ["--cov-report=term-missing"]
    else args in
  let args := if doctest then args ++ ["--doctest-modules"] else args in
  let args := if figures then args ++ ["--mpl"] else args in
  (args ++ ["--pyargs"]) ++ ["gmt"].

(** ** Example data *)

Definition libgmt_symbols : gset string :=
  {[ "GMT_Create_Session"; "GMT_Get_Enum"; "GMT_Call_Module";
     "GMT_Destroy_Session"; "GMT_Open_VirtualFile" ]}.

(** A Linux host on which GMT is not installed. *)
Definition linux_host : World := {|
  sys_platform := "linux";
  os_environ := ∅;
  dlopen := fun path =>
    inl (path +:+ ": cannot open shared object file: No such file or directory")
|}.

(** A macOS host with GMT under [/opt/gmt]. *)
Definition mac_host : World := {|
  sys_platform := "darwin";
  os_environ := {[ "GMT_LIBRARY_PATH" := "/opt/gmt" ]};
  dlopen := fun path =>
    if String.eqb path "/opt/gmt/libgmt.dylib"
    then inr {| exports := libgmt_symbols |}
    else inl ("dlopen(" +:+ path +:+ ", 6): image not found")
|}.

(** A Linux host whose [libgmt.so] lacks two of the entry points. *)
Definition stale_host : World := {|
  sys_platform := "linux2";
  os_environ := ∅;
  dlopen := fun path =>
    inr {| exports := {[ "GMT_Create_Session"; "GMT_Call_Module" ]} |}
|}.

(** [np.array([[1, 2], [3, 4], [5, 6]])], its columns [data[:, 0]] and
    [data[:, 1]] and its transpose [data.T], all views of one buffer. *)
Definition doc_mem : gmap nat (list Z) := {[ 0%nat := [1; 2; 3; 4; 5; 6] ]}.

Definition doc_data : ndarray :=
  {| base := 0; offset := 0; shape := [3; 2]%nat; strides := [2; 1] |}.

Definition doc_column : ndarray :=
  {| base := 0; offset := 0; shape := [3]%nat; strides := [2] |}.

Definition doc_column1 : ndarray :=
  {| base := 0; offset := 1; shape := [3]%nat; strides := [2] |}.

Definition doc_transpose : ndarray :=
  {| base := 0; offset := 0; shape := [2; 3]%nat; strides := [1; 2] |}.

(** [n] coordinates from [start] in steps of [step]. *)
Fixpoint frange (start step : float) (n : nat) : list float :=
  match n with
  | O => []
  | S k => start :: frange (start + step)%float step k
  end.

(** A global grid on whole degrees, latitudes in rows from south to
    north and longitudes in columns, with values [vals]. *)
Definition earth_relief (vals : ndarray) : DataArray := {|
  dims := ["lat"; "lon"];
  coords := {[ "lat" := frange (-90) 1 181; "lon" := frange (-180) 1 361 ]};
  values := vals
|}.

(** The same grid with the north in the first row. *)
Definition north_up (vals : ndarray) : DataArray := {|
  dims := ["lat"; "lon"];
  coords := {[ "lat" := frange 90 (-1) 181; "lon" := frange (-180) 1 361 ]};
  values := vals
|}.

(** One row of that grid: [grid[90:91, :]]. *)
Definition equator_row (vals : ndarray) : DataArray := {|
  dims := ["lat"; "lon"];
  coords := {[ "lat" := [0%float]; "lon" := frange (-180) 1 361 ]};
  values := vals
|}.

(** A grid with a third dimension. *)
Definition cube (vals : ndarray) : DataArray := {|
  dims := ["time"; "lat"; "lon"];
  coords := {[ "time" := frange 0 1 2; "lat" := frange (-90) 1 181;
               "lon" := frange (-180) 1 361 ]};
  values := vals
|}.


(** A grid whose latitudes decrease evenly and whose longitudes are not
    evenly spaced. *)
Definition north_up_uneven (vals : ndarray) : DataArray := {|
  dims := ["lat"; "lon"];
  coords := {[ "lat" := frange 1 (-1) 3; "lon" := [0; 1; 3]%float ]};
  values := vals
|}.

(** One column of a grid whose latitudes decrease evenly. *)
Definition north_up_column (vals : ndarray) : DataArray := {|
  dims := ["lat"; "lon"];
  coords := {[ "lat" := frange 1 (-1) 3; "lon" := [0%float] ]};
  values := vals
|}.

(** A 181 by 361 array in row-major order, and the memory that holds it. *)
Definition relief_vals : ndarray :=
  {| base := 0; offset := 0; shape := [181; 361]%nat; strides := [361; 1] |}.

Definition relief_mem : gmap nat (list float) :=
  {[ 0%nat := replicate (181 * 361) 0%float ]}.

(** The row [grid[90:91, :]] of [relief_vals]. *)
Definition row_vals : ndarray :=
  {| base := 0; offset := 90 * 361; shape := [1; 361]%nat;
     strides := [361; 1] |}.

(** A 3 by 3 array in column-major order. *)
Definition small_vals : ndarray :=
  {| base := 0; offset := 0; shape := [3; 3]%nat; strides := [1; 3] |}.

Definition small_mem : gmap nat (list float) :=
  {[ 0%nat := replicate 9 0%float ]}.

(** The first column [x[:, 0:1]] of a 3 by 3 array in row-major order. *)
Definition column_vals : ndarray :=
  {| base := 0; offset := 0; shape := [3; 1]%nat; strides := [3; 1] |}.

(** A Windows host. *)
Definition windows_host : World := {|
  sys_platform := "win32";
  os_environ := {[ "GMT_LIBRARY_PATH" := "C:/gmt/bin" ]};
  dlopen := fun path => inl ("[WinError 126] " +:+ path)
|}.

(** A 3 by 3 grid, evenly spaced, whose values are held column by
    column. *)
Definition small_grid : DataArray := {|
  dims := ["lat"; "lon"];
  coords := {[ "lat" := frange 0 1 3; "lon" := frange 10 2 3 ]};
  values := small_vals
|}.

(** The same grid with the longitudes in rows: its transpose. *)
Definition small_grid_T : DataArray := {|
  dims := ["lon"; "lat"];
  coords := {[ "lat" := frange 0 1 3; "lon" := frange 10 2 3 ]};
  values := {| base := 0; offset := 0; shape := [3; 3]%nat;
               strides := [3; 1] |}
|}.

(** ** Vocabulary of the statements *)

(** The handle exposes the entry point [GMT_func]. *)
Definition present (lib : CDLL) (func : string) : Prop :=
  hasattr lib ("GMT_" +:+ func) = true.

(** The spacing of a coordinate array: the first of its consecutive
    differences. *)
Definition spacing (coord : list float) : option float :=
  head (coord_diffs coord).

(** A coordinate array is evenly spaced when it has a spacing and all its
    consecutive differences are close to it. *)
Definition regular (coord : list float) : Prop :=
  exists step, spacing coord = Some step /\
               allclose (coord_diffs coord) step = true.

(** It is decreasing when each of its values is less than the one
    before it, and uniformly decreasing when it is evenly spaced and
    decreasing. *)
Definition decreasing (coord : list float) : Prop :=
  Forall (fun p => (p.2 <? p.1)%float = true) (zip coord (drop 1 coord)).

Definition uniformly_decreasing (coord : list float) : Prop :=
  regular coord /\ decreasing coord.

(** A float64 below zero: negative and finite, or minus infinity. *)
Definition SFnegative (s : spec_float) : Prop :=
  match s with
  | S754_infinity true | S754_finite true _ _ => True
  | _ => False
  end.

(** The labeled grid of the data model: two named dimensions, [d1] for
    the rows and [d2] for the columns, each with an evenly spaced
    coordinate array. *)
Definition labeled_grid (grid : DataArray) (d1 d2 : string)
    (c1 c2 : list float) : Prop :=
  dims grid = [d1; d2] /\
  coords grid !! d1 = Some c1 /\ coords grid !! d2 = Some c2 /\
  regular c1 /\ regular c2.

Section VectorVocabulary.
Context {A : Type}.

(** The array a vector-like is or wraps, if any. *)
Definition vector_array (v : @vector A) : option ndarray :=
  match v with
  | Series arr | Array arr => Some arr
  | Sequence _ => None
  end.

(** The shape of a vector-like: a sequence has one axis, as long as the
    sequence. *)
Definition vector_shape (v : @vector A) : list nat :=
  match v with
  | Series arr | Array arr => shape arr
  | Sequence items => [length items]
  end.

(** The array inside a vector-like, if any, reads inside its buffer. *)
Definition vector_valid (mem : gmap nat (list A)) (v : @vector A) : bool :=
  match v with
  | Series arr | Array arr => valid mem arr
  | Sequence _ => true
  end.

End VectorVocabulary.

(** ** Strings: facts *)

Lemma str_app_cons (c : ascii) (s t : string) :
  String c s +:+ t = String c (s +:+ t).
Proof. reflexivity. Qed.

Lemma str_app_nil_l (t : string) : EmptyString +:+ t = t.
Proof. reflexivity. Qed.

Lemma str_app_assoc (s t u : string) : (s +:+ t) +:+ u = s +:+ t +:+ u.
Proof.
  induction s as [|c s IH]; [reflexivity | ].
  now rewrite !str_app_cons, IH.
Qed.

Lemma prefix_app (s t : string) : String.prefix s (s +:+ t) = true.
Proof.
  induction s as [|c s IH].
  - now destruct t.
  - rewrite str_app_cons. simpl.
    destruct (ascii_dec c c); [exact IH | congruence].
Qed.

Lemma str_contains_here (s t : string) : str_contains (s +:+ t) s = true.
Proof.
  destruct s as [|c s]; [now destruct t | ].
  rewrite str_app_cons. cbn [str_contains].
  rewrite <- str_app_cons, prefix_app. reflexivity.
Qed.

Lemma str_contains_app (pre s post : string) :
  str_contains (pre +:+ s +:+ post) s = true.
Proof.
  induction pre as [|c pre IH].
  - exact (str_contains_here s post).
  - rewrite str_app_cons. cbn [str_contains].
    rewrite IH. apply orb_true_r.
Qed.

Lemma str_app_nil_r (s : string) : s +:+ EmptyString = s.
Proof.
  induction s as [|c s IH]; [reflexivity | ].
  now rewrite str_app_cons, IH.
Qed.

Lemma str_contains_end (pre s : string) : str_contains (pre +:+ s) s = true.
Proof.
  rewrite <- (str_app_nil_r s) at 1. apply str_contains_app.
Qed.

(** ** Platform Resolver: facts *)

Lemma clib_extension_linux (w : World) (os_name : string) :
  startswith os_name "linux" = true ->
  clib_extension w (Some os_name) = Return "so".
Proof. intros H. unfold clib_extension. now rewrite H. Qed.

Lemma clib_extension_darwin (w : World) :
  clib_extension w (Some "darwin") = Return "dylib".
Proof. reflexivity. Qed.

Lemma clib_extension_other (w : World) (os_name : string) :
  startswith os_name "linux" = false ->
  os_name <> "darwin" ->
  clib_extension w (Some os_name) =
    Raise (GMTOSError ("Operating system " +:+ dquote +:+ sys_platform w
                       +:+ dquote +:+ " not supported.")).
Proof.
  intros Hl Hd. unfold clib_extension. rewrite Hl.
  destruct (String.eqb_spec os_name "darwin"); [contradiction | reflexivity].
Qed.

Lemma clib_extension_default (w : World) :
  clib_extension w None = clib_extension w (Some (sys_platform w)).
Proof. reflexivity. Qed.

Lemma clib_extension_value (w : World) (os_name : option string) (ext : string) :
  clib_extension w os_name = Return ext -> ext = "so" \/ ext = "dylib".
Proof.
  unfold clib_extension.
  destruct (startswith _ "linux"); [intros [= <-]; now left | ].
  destruct (String.eqb _ "darwin"); [intros [= <-]; now right | discriminate].
Qed.

(** C2: asked on a Linux host for the extension of ["win32"], the resolver
    fails with the unsupported-operating-system error, but the message
    names the host's own [sys.platform], ["linux"], and not the identifier
    it was given. *)
Theorem clib_extension_names_host_platform :
  exists msg,
    clib_extension linux_host (Some "win32") = Raise (GMTOSError msg) /\
    msg = "Operating system " +:+ dquote +:+ "linux" +:+ dquote
          +:+ " not supported." /\
    str_contains msg "win32" = false /\
    str_contains msg (sys_platform linux_host) = true.
Proof. eexists. repeat split; vm_compute; reflexivity. Qed.

(** ** Symbol Validator: facts *)

Lemma check_loop_all (lib : CDLL) (funcs : list string) :
  Forall (present lib) funcs <-> check_loop lib funcs = Return tt.
Proof.
  unfold present. induction funcs as [|f funcs IH]; simpl.
  - split; [reflexivity | constructor].
  - destruct (hasattr lib ("GMT_" +:+ f)) eqn:Hf; simpl.
    + rewrite <- IH. split; [now inversion 1 | now constructor].
    + split; [inversion 1; congruence | discriminate].
Qed.

Lemma check_loop_first (lib : CDLL) (pre post : list string) (func : string) :
  Forall (present lib) pre ->
  hasattr lib ("GMT_" +:+ func) = false ->
  check_loop lib (pre ++ func :: post) = Raise (GMTCLibError (missing_msg func)).
Proof.
  intros Hpre Hf. induction Hpre as [|g pre Hg _ IH]; simpl.
  - now rewrite Hf.
  - unfold present in Hg. now rewrite Hg.
Qed.

Lemma check_loop_raises (lib : CDLL) (funcs : list string) (e : exn) :
  check_loop lib funcs = Raise e -> exists func, e = GMTCLibError (missing_msg func).
Proof.
  induction funcs as [|f funcs IH]; simpl; [discriminate | ].
  destruct (hasattr lib ("GMT_" +:+ f)); simpl; [exact IH | ].
  intros [= <-]. now exists f.
Qed.

Lemma check_loop_cases (lib : CDLL) (funcs : list string) :
  check_loop lib funcs = Return tt \/
  exists (pre post : list string) (func : string),
    funcs = pre ++ func :: post /\
    Forall (present lib) pre /\
    hasattr lib ("GMT_" +:+ func) = false.
Proof.
  induction funcs as [|f funcs IH]; [now left | ].
  destruct (hasattr lib ("GMT_" +:+ f)) eqn:Hf.
  - destruct IH as [Hok|(pre & post & func & -> & Hpre & Hmiss)].
    + left. simpl. now rewrite Hf.
    + right. exists (f :: pre), post, func. repeat split; [ | exact Hmiss].
      now constructor.
  - right. exists [], funcs, f. repeat split; [constructor | exact Hf].
Qed.

(** C6: the validator checks [GMT_Create_Session], [GMT_Get_Enum],
    [GMT_Call_Module] and [GMT_Destroy_Session] in this order; it returns
    without error exactly when the handle exposes all four, and otherwise
    one of them is the first that is missing and the validator raises the
    library-load error that names it. *)
Theorem check_libgmt_first_missing (lib : CDLL) :
  functions = ["Create_Session"; "Get_Enum"; "Call_Module"; "Destroy_Session"] /\
  (Forall (present lib) functions <-> check_libgmt lib = Return tt) /\
  (forall (pre post : list string) (func : string),
     functions = pre ++ func :: post ->
     Forall (present lib) pre ->
     hasattr lib ("GMT_" +:+ func) = false ->
     check_libgmt lib =
       Raise (GMTCLibError
                ("Error loading libgmt. Couldn't access function GMT_"
                 +:+ func +:+ "."))) /\
  (check_libgmt lib = Return tt \/
   exists (pre post : list string) (func : string),
     functions = pre ++ func :: post /\
     Forall (present lib) pre /\
     hasattr lib ("GMT_" +:+ func) = false).
Proof.
  split; [reflexivity | split; [ | split]].
  - apply check_loop_all.
  - intros pre post func Hsplit Hpre Hf. unfold check_libgmt.
    rewrite Hsplit. now rewrite (check_loop_first lib pre post func).
  - apply check_loop_cases.
Qed.

Lemma check_libgmt_first_missing_witness :
  check_libgmt {| exports := {[ "GMT_Create_Session"; "GMT_Call_Module" ]} |} =
    Raise (GMTCLibError
             "Error loading libgmt. Couldn't access function GMT_Get_Enum.").
Proof.
  apply (proj1 (proj2 (proj2 (check_libgmt_first_missing _)))
           ["Create_Session"] ["Call_Module"; "Destroy_Session"] "Get_Enum").
  - reflexivity.
  - constructor; [vm_compute; reflexivity | constructor].
  - vm_compute; reflexivity.
Defined.

(** ** Library Locator: facts *)

Lemma os_path_join_plain (dir name : string) :
  startswith name "/" = false ->
  dir <> EmptyString ->
  endswith dir "/" = false ->
  os_path_join dir name = dir +:+ "/" +:+ name.
Proof.
  intros Hn Hd He. unfold os_path_join. rewrite Hn, He.
  destruct (String.eqb_spec dir EmptyString); [contradiction | reflexivity].
Qed.

Lemma os_path_join_slash (dir name : string) :
  startswith name "/" = false ->
  endswith dir "/" = true ->
  os_path_join dir name = dir +:+ name.
Proof.
  intros Hn He. unfold os_path_join. rewrite Hn, He.
  now rewrite orb_true_r.
Qed.

Lemma get_clib_path_raises (w : World) (env : option (gmap string string))
    (e : exn) :
  get_clib_path w env = Raise e -> exists msg, e = GMTOSError msg.
Proof.
  unfold get_clib_path, clib_extension.
  destruct (startswith _ "linux"); simpl.
  { destruct (_ !! _); discriminate. }
  destruct (String.eqb _ "darwin"); simpl.
  { destruct (_ !! _); discriminate. }
  intros [= <-]. eauto.
Qed.

(** C8: with the extension [ext] that the Platform Resolver gives for the
    running platform, the locator returns [os.path.join] of the value of
    [GMT_LIBRARY_PATH] and [libgmt.ext] when the mapping has that
    variable, and the bare [libgmt.ext] when it has not; so
    [GMT_LIBRARY_PATH=/opt/gmt] gives [/opt/gmt/libgmt.ext] and the empty
    mapping gives [libgmt.ext].  Without a mapping the process environment
    is used. *)
Theorem get_clib_path_spec (w : World) (env : gmap string string)
    (ext : string) :
  clib_extension w None = Return ext ->
  (forall dir : string,
     env !! "GMT_LIBRARY_PATH" = Some dir ->
     get_clib_path w (Some env) =
       Return (os_path_join dir ("libgmt." +:+ ext))) /\
  (env !! "GMT_LIBRARY_PATH" = None ->
   get_clib_path w (Some env) = Return ("libgmt." +:+ ext)) /\
  get_clib_path w (Some {[ "GMT_LIBRARY_PATH" := "/opt/gmt" ]}) =
    Return ("/opt/gmt/libgmt." +:+ ext) /\
  get_clib_path w (Some ∅) = Return ("libgmt." +:+ ext) /\
  get_clib_path w None = get_clib_path w (Some (os_environ w)).
Proof.
  intros Hext. unfold get_clib_path. rewrite Hext. simpl.
  repeat split.
  - intros dir Hdir. now rewrite Hdir.
  - intros Hnone. now rewrite Hnone.
Qed.

Lemma get_clib_path_spec_witness :
  get_clib_path mac_host None = Return "/opt/gmt/libgmt.dylib".
Proof.
  rewrite (proj2 (proj2 (proj2 (proj2
    (get_clib_path_spec mac_host ∅ "dylib" eq_refl))))).
  apply (proj1 (get_clib_path_spec mac_host (os_environ mac_host) "dylib"
                  eq_refl) "/opt/gmt").
  reflexivity.
Defined.

(** ** Library Loader: facts *)

Lemma not_found_msg_text (libpath : string) (err : exn) :
  not_found_msg libpath err =
    "Couldn't find the GMT shared library '" +:+ libpath +:+ "'."
    +:+ newline +:+ "Original error message:" +:+ newline +:+ str_exn err.
Proof. unfold not_found_msg. simpl. now rewrite !str_app_assoc. Qed.

Lemma not_found_msg_names (libpath : string) (err : exn) :
  str_contains (not_found_msg libpath err) libpath = true /\
  str_contains (not_found_msg libpath err) (str_exn err) = true.
Proof.
  rewrite not_found_msg_text. split.
  - apply str_contains_app.
  - rewrite <- !str_app_assoc. apply str_contains_end.
Qed.

Lemma load_libgmt_unfold (catches : exn -> bool) (w : World)
    (env : option (gmap string string)) (libpath : string) :
  get_clib_path w env = Return libpath ->
  load_libgmt catches w env =
    match dlopen w libpath with
    | inl errtext =>
        if catches (OSError errtext)
        then Raise (GMTCLibNotFoundError
                      (not_found_msg libpath (OSError errtext)))
        else Raise (OSError errtext)
    | inr lib =>
        match check_libgmt lib with
        | Return _ => Return lib
        | Raise err =>
            if catches err
            then Raise (GMTCLibNotFoundError (not_found_msg libpath err))
            else Raise err
        end
    end.
Proof.
  intros Hpath. unfold load_libgmt, ctypes_CDLL. rewrite Hpath. simpl.
  destruct (dlopen w libpath) as [errtext|lib]; simpl; [reflexivity | ].
  now destruct (check_libgmt lib).
Qed.

(** C7: whatever [except OSError] catches besides the platform's own
    [OSError]: when opening the located path fails, the loader raises the
    library-not-found error, whose message holds the path and the text of
    the system error; the loader never raises the platform's [OSError];
    when the opened library fails validation the loader raises a typed
    error and returns no handle; and a handle is returned only after it
    passed validation. *)
Theorem load_libgmt_wraps_open_failure (catches : exn -> bool) (w : World)
    (env : option (gmap string string)) :
  (forall text : string, catches (OSError text) = true) ->
  (forall libpath errtext : string,
     get_clib_path w env = Return libpath ->
     dlopen w libpath = inl errtext ->
     exists msg : string,
       load_libgmt catches w env = Raise (GMTCLibNotFoundError msg) /\
       msg = "Couldn't find the GMT shared library '" +:+ libpath +:+ "'."
             +:+ newline +:+ "Original error message:" +:+ newline
             +:+ errtext /\
       str_contains msg libpath = true /\
       str_contains msg errtext = true) /\
  (forall text : string, load_libgmt catches w env <> Raise (OSError text)) /\
  (forall (libpath : string) (lib : CDLL) (e : exn),
     get_clib_path w env = Return libpath ->
     dlopen w libpath = inr lib ->
     check_libgmt lib = Raise e ->
     exists e', load_libgmt catches w env = Raise e' /\
                is_typed_error e' = true) /\
  (forall lib : CDLL,
     load_libgmt catches w env = Return lib ->
     check_libgmt lib = Return tt).
Proof.
  intros Hcatch. split; [ | split; [ | split]].
  - intros libpath errtext Hpath Hopen.
    exists (not_found_msg libpath (OSError errtext)).
    split; [ | split; [apply not_found_msg_text | ]].
    + now rewrite (load_libgmt_unfold _ _ _ _ Hpath), Hopen, Hcatch.
    + apply (not_found_msg_names libpath (OSError errtext)).
  - intros text Hraise.
    destruct (get_clib_path w env) as [libpath|e] eqn:Hpath.
    + rewrite (load_libgmt_unfold _ _ _ _ Hpath) in Hraise.
      destruct (dlopen w libpath) as [errtext|lib].
      * now rewrite Hcatch in Hraise.
      * destruct (check_libgmt lib) as [|err] eqn:Hchk; [discriminate | ].
        apply check_loop_raises in Hchk as [func ->].
        now destruct (catches _).
    + unfold load_libgmt in Hraise. rewrite Hpath in Hraise. simpl in Hraise.
      apply get_clib_path_raises in Hpath as [msg ->]. discriminate.
  - intros libpath lib e Hpath Hopen Hchk.
    rewrite (load_libgmt_unfold _ _ _ _ Hpath), Hopen, Hchk.
    apply check_loop_raises in Hchk as [func ->].
    destruct (catches _); eexists; split; reflexivity.
  - intros lib Hret.
    destruct (get_clib_path w env) as [libpath|e] eqn:Hpath.
    + rewrite (load_libgmt_unfold _ _ _ _ Hpath) in Hret.
      destruct (dlopen w libpath) as [errtext|lib'].
      * now destruct (catches _).
      * destruct (check_libgmt lib') as [[]|err] eqn:Hchk.
        -- now injection Hret as <-.
        -- now destruct (catches _).
    + unfold load_libgmt in Hret. rewrite Hpath in Hret. discriminate.
Qed.

Lemma load_libgmt_wraps_open_failure_witness :
  exists msg : string,
    load_libgmt isinstance_OSError linux_host None =
      Raise (GMTCLibNotFoundError msg) /\
    msg = "Couldn't find the GMT shared library 'libgmt.so'."
          +:+ newline +:+ "Original error message:" +:+ newline
          +:+ "libgmt.so: cannot open shared object file: No such file or directory" /\
    str_contains msg "libgmt.so" = true /\
    str_contains msg
      "libgmt.so: cannot open shared object file: No such file or directory"
      = true.
Proof.
  apply (proj1 (load_libgmt_wraps_open_failure isinstance_OSError linux_host
                  None (fun _ => eq_refl))
           "libgmt.so"
           "libgmt.so: cannot open shared object file: No such file or directory");
    reflexivity.
Defined.

Example load_libgmt_mac :
  load_libgmt isinstance_OSError mac_host None =
    Return {| exports := libgmt_symbols |}.
Proof. vm_compute. reflexivity. Qed.

Example load_libgmt_stale :
  load_libgmt isinstance_OSError stale_host None =
    Raise (GMTCLibError
             "Error loading libgmt. Couldn't access function GMT_Get_Enum.").
Proof. vm_compute. reflexivity. Qed.

(** ** numpy arrays: facts *)

Section NDArrayFacts.
Context {A : Type}.
Implicit Types (mem : gmap nat (list A)) (a : ndarray).

Lemma flat_pos_cons (st : Z) (sts : list Z) (i : nat) (idx : list nat) :
  flat_pos (st :: sts) (i :: idx) = Z.of_nat i * st + flat_pos sts idx.
Proof. reflexivity. Qed.

(** Row-major strides pass numpy's contiguity scan, which ends either on
    an axis of length 0 or with the size of the array as next stride. *)
Lemma contig_scan_c_strides (shp : list nat) :
  match foldr contig_step (Some (1, true)) (zip shp (c_strides shp)) with
  | None => True
  | Some (sd, ok) => sd = Z.of_nat (size_of shp) /\ ok = true
  end.
Proof.
  induction shp as [|d shp IH]; simpl; [split; reflexivity | ].
  destruct (foldr contig_step _ _) as [[sd ok]|]; simpl; [ | exact I].
  destruct IH as [-> ->].
  destruct (Nat.eqb_spec d 0) as [->|Hd0]; [exact I | ].
  destruct (Nat.eqb_spec d 1) as [->|Hd1].
  - split; [ | reflexivity]. unfold size_of. simpl. f_equal. lia.
  - rewrite Z.eqb_refl. split; [ | reflexivity].
    unfold size_of. simpl. lia.
Qed.

Lemma c_strides_contiguous (b : nat) (shp : list nat) :
  c_contiguous {| base := b; offset := 0; shape := shp;
                  strides := c_strides shp |} = true.
Proof.
  unfold c_contiguous. simpl.
  pose proof (contig_scan_c_strides shp) as H.
  destruct (foldr contig_step _ _) as [[sd ok]|]; [apply H | reflexivity].
Qed.

Lemma length_ndindex (shp : list nat) : length (ndindex shp) = size_of shp.
Proof.
  induction shp as [|d shp IH]; [reflexivity | ].
  cbn [ndindex size_of foldr]. fold (size_of shp). rewrite <- IH.
  generalize 0%nat. induction d as [|d IHd]; intros k; [reflexivity | ].
  cbn [seq]. rewrite bind_cons, length_app, length_fmap, IHd. reflexivity.
Qed.

(** In a row-major array the [k]-th index, in row-major order, sits at
    position [k]. *)
Lemma flat_pos_ndindex (shp : list nat) :
  flat_pos (c_strides shp) <$> ndindex shp = Z.of_nat <$> seq 0 (size_of shp).
Proof.
  induction shp as [|d shp IH]; [reflexivity | ].
  cbn [ndindex c_strides size_of foldr]. fold (size_of shp).
  set (n := size_of shp) in *.
  enough (H : forall k : nat,
    flat_pos (Z.of_nat n :: c_strides shp)
      <$> (seq k d ≫= fun i => cons i <$> ndindex shp)
    = Z.of_nat <$> seq (k * n) (d * n)).
  { apply (H 0%nat). }
  induction d as [|d IHd]; intros k; [reflexivity | ].
  cbn [seq]. rewrite bind_cons, fmap_app, IHd.
  replace (S d * n)%nat with (n + d * n)%nat by lia.
  rewrite seq_app, fmap_app. f_equal.
  - rewrite <- list_fmap_compose.
    erewrite list_fmap_ext with (g := fun idx =>
      (Z.of_nat (k * n) + flat_pos (c_strides shp) idx)).
    2:{ intros i idx _. simpl. rewrite flat_pos_cons. lia. }
    rewrite (list_fmap_compose (flat_pos (c_strides shp))
               (Z.add (Z.of_nat (k * n)))), IH.
    transitivity (Z.of_nat <$> (Nat.add (k * n) <$> seq 0 n)).
    + rewrite <- !list_fmap_compose. apply list_fmap_ext.
      intros i x _. simpl. lia.
    + rewrite fmap_add_seq. do 2 f_equal. lia.
  - f_equal. f_equal. lia.
Qed.

Lemma valid_spec mem a :
  valid mem a = true <->
  forall idx : list nat, idx ∈ ndindex (shape a) -> is_Some (getitem mem a idx).
Proof.
  unfold valid. rewrite forallb_forall. split.
  - intros H idx Hin. apply list_elem_of_In, H in Hin.
    now apply bool_decide_eq_true in Hin.
  - intros H idx Hin. apply bool_decide_eq_true, H, list_elem_of_In, Hin.
Qed.

Lemma omap_total {B C : Type} (f : B -> option C) (l : list B) :
  (forall x : B, x ∈ l -> is_Some (f x)) -> Some <$> omap f l = f <$> l.
Proof.
  induction l as [|x l IH]; intros H; [reflexivity | ].
  destruct (H x) as [y Hy]; [left | ].
  cbn [omap list_omap fmap list_fmap]. rewrite Hy. cbn [fmap list_fmap].
  f_equal. apply IH. intros z Hz. apply H. now right.
Qed.

(** Reading the copy at an index gives what the original holds there. *)
Lemma copy_C_ravel mem a :
  valid mem a = true ->
  ravel (copy_C mem a).1 (copy_C mem a).2 = ravel mem a.
Proof.
  intros Hvalid. rewrite valid_spec in Hvalid.
  pose proof (omap_total (getitem mem a) (ndindex (shape a)) Hvalid) as Helems.
  unfold copy_C. cbn [fst snd]. set (elems := omap _ _) in *.
  set (new := fresh (dom mem)). unfold ravel. cbn [shape].
  apply list_eq. intros i. rewrite !list_lookup_fmap.
  destruct (ndindex (shape a) !! i) as [idx|] eqn:Hi; [ | reflexivity].
  cbn [fmap option_fmap option_map]. f_equal.
  assert (Hlt : (i < size_of (shape a))%nat).
  { rewrite <- length_ndindex. now apply lookup_lt_Some in Hi. }
  assert (Hpos : flat_pos (c_strides (shape a)) idx = Z.of_nat i).
  { pose proof (f_equal (fun l => l !! i) (flat_pos_ndindex (shape a))) as H.
    cbn beta in H. rewrite !list_lookup_fmap, Hi in H.
    rewrite lookup_seq_lt in H by exact Hlt. now injection H. }
  apply (f_equal (fun l => l !! i)) in Helems. cbn beta in Helems.
  rewrite !list_lookup_fmap, Hi in Helems. cbn in Helems.
  unfold getitem at 1. cbn [base offset strides].
  rewrite lookup_insert_eq. cbn [mbind option_bind]. rewrite Hpos.
  destruct (decide (0 <= 0 + Z.of_nat i)) as [_|Hneg]; [ | lia].
  replace (Z.to_nat (0 + Z.of_nat i)) with i by lia.
  destruct (elems !! i); [now injection Helems | discriminate].
Qed.

Lemma copy_C_fresh mem a : base (copy_C mem a).2 ∉ dom mem.
Proof. apply is_fresh. Qed.

Lemma copy_C_extends mem a : mem ⊆ (copy_C mem a).1.
Proof. apply insert_subseteq, not_elem_of_dom, is_fresh. Qed.

Lemma as_c_contiguous_flag mem a :
  c_contiguous (as_c_contiguous mem a).2 = true.
Proof.
  unfold as_c_contiguous. destruct (c_contiguous a) eqn:Hc; simpl.
  - exact Hc.
  - apply c_strides_contiguous.
Qed.

Lemma as_c_contiguous_shape mem a :
  shape (as_c_contiguous mem a).2 = shape a.
Proof. unfold as_c_contiguous. now destruct (c_contiguous a). Qed.

Lemma as_c_contiguous_ravel mem a :
  valid mem a = true ->
  ravel (as_c_contiguous mem a).1 (as_c_contiguous mem a).2 = ravel mem a.
Proof.
  intros Hvalid. unfold as_c_contiguous.
  destruct (c_contiguous a); simpl; [reflexivity | ].
  now apply copy_C_ravel.
Qed.

Lemma as_c_contiguous_valid mem a :
  valid mem a = true ->
  valid (as_c_contiguous mem a).1 (as_c_contiguous mem a).2 = true.
Proof.
  intros Hvalid. pose proof (as_c_contiguous_ravel mem a Hvalid) as Hr.
  rewrite valid_spec in *. rewrite as_c_contiguous_shape.
  intros idx Hin. apply list_elem_of_lookup in Hin as [i Hi].
  apply (f_equal (fun l => l !! i)) in Hr. unfold ravel in Hr. cbn beta in Hr.
  rewrite as_c_contiguous_shape, !list_lookup_fmap, Hi in Hr.
  cbn in Hr. injection Hr as ->. apply Hvalid.
  now apply list_elem_of_lookup_2 in Hi.
Qed.

Lemma vectors_to_arrays_length mem (vectors : list vector) :
  length (vectors_to_arrays mem vectors).2 = length vectors.
Proof.
  revert mem. induction vectors as [|v vectors IH]; intros mem; [reflexivity | ].
  cbn [vectors_to_arrays]. destruct (_as_array mem v) as [mem1 arr].
  destruct (as_c_contiguous mem1 arr) as [mem2 arr'].
  specialize (IH mem2). destruct (vectors_to_arrays mem2 vectors).
  cbn [snd length] in *. now rewrite IH.
Qed.

Lemma vectors_to_arrays_contiguous mem (vectors : list vector) :
  Forall (fun arr => c_contiguous arr = true) (vectors_to_arrays mem vectors).2.
Proof.
  revert mem. induction vectors as [|v vectors IH]; intros mem; [constructor | ].
  cbn [vectors_to_arrays]. destruct (_as_array mem v) as [mem1 arr].
  pose proof (as_c_contiguous_flag mem1 arr) as Hf.
  destruct (as_c_contiguous mem1 arr) as [mem2 arr'].
  specialize (IH mem2). destruct (vectors_to_arrays mem2 vectors).
  cbn [snd] in *. now constructor.
Qed.

(** C3: on a C-contiguous array [as_c_contiguous] returns the array
    itself and leaves the memory as it is; on any other array it returns
    a view of a buffer that did not exist before, C-contiguous, with the
    shape of the original and, index by index, its values, and no buffer
    that existed is changed; applied to its own result it returns that
    result again; and this is what the Array Normalizer makes of an
    array. *)
Theorem as_c_contiguous_copy_on_demand mem a :
  (c_contiguous a = true -> as_c_contiguous mem a = (mem, a)) /\
  (c_contiguous a = false ->
   valid mem a = true ->
   forall mem' a',
     as_c_contiguous mem a = (mem', a') ->
     (base a' ∉ dom mem) /\
     (mem ⊆ mem') /\
     c_contiguous a' = true /\
     shape a' = shape a /\
     ravel mem' a' = ravel mem a) /\
  (forall mem' a',
     as_c_contiguous mem a = (mem', a') ->
     c_contiguous a' = true /\ as_c_contiguous mem' a' = (mem', a')) /\
  (forall mem' a',
     as_c_contiguous mem a = (mem', a') ->
     vectors_to_arrays mem [Array a] = (mem', [a'])).
Proof.
  split; [ | split; [ | split]].
  - intros Hc. unfold as_c_contiguous. now rewrite Hc.
  - intros Hc Hvalid mem' a' Heq.
    pose proof (as_c_contiguous_ravel mem a Hvalid) as Hr.
    pose proof (as_c_contiguous_flag mem a) as Hf.
    pose proof (as_c_contiguous_shape mem a) as Hs.
    rewrite Heq in Hr, Hf, Hs. cbn [fst snd] in *.
    unfold as_c_contiguous in Heq. rewrite Hc in Heq. cbn [negb] in Heq.
    repeat split; try assumption.
    + replace a' with (copy_C mem a).2 by now rewrite Heq.
      apply copy_C_fresh.
    + replace mem' with (copy_C mem a).1 by now rewrite Heq.
      apply copy_C_extends.
  - intros mem' a' Heq. pose proof (as_c_contiguous_flag mem a) as Hf.
    rewrite Heq in Hf. cbn [snd] in Hf. split; [exact Hf | ].
    unfold as_c_contiguous. now rewrite Hf.
  - intros mem' a' Heq. cbn [vectors_to_arrays _as_array]. now rewrite Heq.
Qed.
End NDArrayFacts.

(** C3 on the arrays of the docstring: [data[:, 0]] is not C-contiguous
    and is copied. *)
Lemma as_c_contiguous_copy_on_demand_witness :
  (base (as_c_contiguous doc_mem doc_column).2 ∉ dom doc_mem) /\
  (doc_mem ⊆ (as_c_contiguous doc_mem doc_column).1) /\
  c_contiguous (as_c_contiguous doc_mem doc_column).2 = true /\
  shape (as_c_contiguous doc_mem doc_column).2 = [3%nat] /\
  ravel (as_c_contiguous doc_mem doc_column).1
        (as_c_contiguous doc_mem doc_column).2 = [Some 1; Some 3; Some 5].
Proof.
  apply (proj1 (proj2 (as_c_contiguous_copy_on_demand doc_mem doc_column))
           eq_refl eq_refl).
  apply surjective_pairing.
Defined.

Example as_c_contiguous_doc_data :
  as_c_contiguous doc_mem doc_data = (doc_mem, doc_data).
Proof. reflexivity. Qed.

Example as_c_contiguous_doc_transpose :
  c_contiguous doc_transpose = false /\
  ravel doc_mem doc_transpose =
    [Some 1; Some 3; Some 5; Some 2; Some 4; Some 6] /\
  (as_c_contiguous doc_mem doc_transpose).1 !!
    base (as_c_contiguous doc_mem doc_transpose).2 = Some [1; 3; 5; 2; 4; 6] /\
  strides (as_c_contiguous doc_mem doc_transpose).2 = [3; 1].
Proof. repeat split; vm_compute; reflexivity. Qed.

(** The vectors of the docstring of [vectors_to_arrays], with a list in
    place of the series: each column is copied, the list is converted. *)
Example vectors_to_arrays_doc :
  let '(mem', arrays) :=
    vectors_to_arrays doc_mem
      [Array doc_column; Array doc_column1; Sequence [-1; -2; -3]] in
  forallb c_contiguous arrays = true /\
  (fun arr => ravel mem' arr) <$> arrays =
    [[Some 1; Some 3; Some 5]; [Some 2; Some 4; Some 6];
     [Some (-1); Some (-2); Some (-3)]] /\
  mem' !! 0%nat = Some [1; 2; 3; 4; 5; 6].
Proof. vm_compute. repeat split; reflexivity. Qed.

(** ** Coordinate arrays: facts *)

Lemma coord_diffs_cons2 (x0 x1 : float) (tl : list float) :
  coord_diffs (x0 :: x1 :: tl) = (x1 - x0)%float :: coord_diffs (x1 :: tl).
Proof.
  unfold coord_diffs. cbn [length drop Nat.sub take zip_with].
  now rewrite Nat.sub_0_r.
Qed.

Lemma spacing_two (coord : list float) :
  (2 <= length coord)%nat ->
  exists x0 x1 tl, coord = x0 :: x1 :: tl /\ spacing coord = Some (x1 - x0)%float.
Proof.
  destruct coord as [|x0 [|x1 tl]]; simpl; try lia. intros _.
  exists x0, x1, tl. split; [reflexivity | ].
  unfold spacing. now rewrite coord_diffs_cons2.
Qed.

Lemma spacing_short (coord : list float) :
  (length coord < 2)%nat -> coord_diffs coord = [].
Proof. destruct coord as [|x0 [|x1 tl]]; simpl; [reflexivity.. | lia]. Qed.

Lemma spacing_inv (coord : list float) (step : float) :
  spacing coord = Some step ->
  (2 <= length coord)%nat /\ item0 (coord_diffs coord) = Return step.
Proof.
  destruct coord as [|x0 [|x1 tl]]; try discriminate.
  unfold spacing. rewrite coord_diffs_cons2. simpl.
  intros [= <-]. split; [lia | reflexivity].
Qed.

Lemma regular_length (coord : list float) :
  regular coord -> (2 <= length coord)%nat.
Proof. intros (step & Hs & _). now apply spacing_inv in Hs. Qed.

Lemma forallb_Forall_true {B : Type} (f : B -> bool) (l : list B) :
  forallb f l = true -> Forall (fun x => f x = true) l.
Proof.
  intros H. apply Forall_forall. intros x Hx.
  apply list_elem_of_In in Hx. revert x Hx. now apply forallb_forall.
Qed.

(** *** float64 comparisons

    What the region needs of IEEE comparisons, from the specification of
    the primitive operations. *)

Lemma SFcompare_refl (s : spec_float) :
  s <> S754_nan -> SFcompare s s = Some Eq.
Proof.
  destruct s as [sg|sg| |sg m e]; intros Hs; try contradiction;
    destruct sg; cbn; rewrite ?Z.compare_refl, ?Pos.compare_cont_refl;
    reflexivity.
Qed.

Lemma is_nan_spec (x : float) : is_nan x = true <-> Prim2SF x = S754_nan.
Proof.
  unfold is_nan. rewrite FloatAxioms.eqb_spec. unfold SFeqb. split.
  - intros H. destruct (Prim2SF x) eqn:Hx; try reflexivity;
      rewrite SFcompare_refl in H by discriminate; discriminate.
  - intros ->. reflexivity.
Qed.

Lemma not_nan_spec (x : float) : is_nan x = false <-> Prim2SF x <> S754_nan.
Proof.
  rewrite <- is_nan_spec. destruct (is_nan x); split; congruence.
Qed.

Lemma leb_refl (x : float) : is_nan x = false -> (x <=? x)%float = true.
Proof.
  rewrite not_nan_spec, FloatAxioms.leb_spec. intros Hx. unfold SFleb.
  now rewrite SFcompare_refl.
Qed.

Lemma eqb_not_nan (x y : float) : (x =? y)%float = true -> is_nan x = false.
Proof.
  rewrite FloatAxioms.eqb_spec, not_nan_spec. unfold SFeqb. intros H Hx.
  rewrite Hx in H. discriminate.
Qed.

Lemma sub_not_nan (a b : float) :
  is_nan (a - b) = false -> is_nan a = false /\ is_nan b = false.
Proof.
  rewrite !not_nan_spec, FloatAxioms.sub_spec. unfold SF64sub, SFsub. intros H.
  split; intros Hx; apply H; rewrite Hx; [reflexivity | ].
  now destruct (Prim2SF a).
Qed.

Lemma isclose_not_nan (d s : float) : isclose d s = true -> is_nan d = false.
Proof.
  unfold isclose, is_finite.
  destruct (is_nan d) eqn:Hd; [ | reflexivity]. cbn.
  intros H. apply eqb_not_nan in H. congruence.
Qed.

Lemma fmin_fmax_step (a b y : float) :
  is_nan a = false -> is_nan b = false -> is_nan y = false ->
  (a <=? b)%float = true ->
  is_nan (fmin a y) = false /\ is_nan (fmax b y) = false /\
  (fmin a y <=? fmax b y)%float = true.
Proof.
  intros Ha Hb Hy Hab. unfold fmin, fmax. rewrite Ha, Hb, !orb_false_r.
  destruct (a <=? y)%float eqn:Hay, (y <=? b)%float eqn:Hyb;
    repeat split; try assumption.
  now apply leb_refl.
Qed.

Lemma fold_min_le_max (l : list float) (a b : float) :
  is_nan a = false -> is_nan b = false ->
  (a <=? b)%float = true ->
  Forall (fun y => is_nan y = false) l ->
  (foldl fmin a l <=? foldl fmax b l)%float = true.
Proof.
  intros Ha Hb Hab Hl. revert a b Ha Hb Hab.
  induction Hl as [|y l Hy _ IH]; intros a b Ha Hb Hab; [exact Hab | ].
  destruct (fmin_fmax_step a b y Ha Hb Hy Hab) as (Ha' & Hb' & Hab').
  cbn [foldl]. now apply IH.
Qed.

(** No coordinate is a NaN when no consecutive difference is. *)
Lemma coords_not_nan (x0 : float) (tl : list float) :
  tl <> [] ->
  Forall (fun d => is_nan d = false) (coord_diffs (x0 :: tl)) ->
  Forall (fun x => is_nan x = false) (x0 :: tl).
Proof.
  revert x0. induction tl as [|x1 tl IH]; intros x0 Hne Hd; [contradiction | ].
  rewrite coord_diffs_cons2 in Hd. inversion Hd as [|d ds Hd0 Hds]; subst.
  apply sub_not_nan in Hd0 as [Hx1 Hx0]. constructor; [exact Hx0 | ].
  destruct tl as [|x2 tl]; [now repeat constructor | ].
  now apply IH.
Qed.

(** The minimum of an evenly spaced coordinate array is at most its
    maximum. *)
Lemma regular_min_le_max (coord : list float) (lo hi : float) :
  regular coord ->
  np_min coord = Return lo ->
  np_max coord = Return hi ->
  (lo <=? hi)%float = true.
Proof.
  intros (step & Hs & Hclose) Hlo Hhi.
  apply spacing_inv in Hs as [Hlen _].
  destruct coord as [|x0 tl]; [discriminate | ].
  assert (Hnn : Forall (fun x => is_nan x = false) (x0 :: tl)).
  { apply coords_not_nan; [now destruct tl; simpl in Hlen; try lia | ].
    unfold allclose in Hclose. apply forallb_Forall_true in Hclose.
    eapply Forall_impl; [exact Hclose | ].
    intros d Hd. cbn beta in Hd. now apply isclose_not_nan in Hd. }
  cbn in Hlo, Hhi. injection Hlo as <-. injection Hhi as <-.
  inversion Hnn as [|x l Hx0 Htl]; subst.
  apply fold_min_le_max; try assumption. now apply leb_refl.
Qed.


(** *** float64 subtraction

    The difference of a float64 and a greater one is below zero: rounding
    moves no difference of two floats to zero.  From the specification of
    the primitive operations. *)

Lemma digits2_pos_bounds (m : positive) :
  2 ^ (Zpos (digits2_pos m) - 1) <= Zpos m < 2 ^ Zpos (digits2_pos m).
Proof.
  induction m as [m IH | m IH |]; cbn [digits2_pos].
  - rewrite Pos2Z.inj_succ, (Pos2Z.inj_xI m).
    replace (Z.succ (Zpos (digits2_pos m)) - 1) with (Z.succ (Zpos (digits2_pos m) - 1)) by lia.
    rewrite !Z.pow_succ_r by lia. lia.
  - rewrite Pos2Z.inj_succ, (Pos2Z.inj_xO m).
    replace (Z.succ (Zpos (digits2_pos m)) - 1) with (Z.succ (Zpos (digits2_pos m) - 1)) by lia.
    rewrite !Z.pow_succ_r by lia. lia.
  - cbn. lia.
Qed.

Lemma shr_m_shr_1 (r : shr_record) :
  0 <= shr_m r -> shr_m (shr_1 r) = shr_m r / 2.
Proof.
  destruct r as [m rr s]. cbn [shr_m]. intros Hm.
  rewrite <- Z.div2_div.
  destruct m as [|[p|p|]|]; try reflexivity. lia.
Qed.

Lemma shr_m_iter (p : positive) : forall r : shr_record,
  0 <= shr_m r -> shr_m (SpecFloat.iter_pos shr_1 p r) = shr_m r / 2 ^ Zpos p.
Proof.
  induction p as [p IH | p IH |]; intros r Hr; cbn [SpecFloat.iter_pos].
  - assert (H1 : 0 <= shr_m (shr_1 r)).
    { rewrite shr_m_shr_1 by exact Hr. apply Z.div_pos; lia. }
    assert (H2 : 0 <= shr_m (SpecFloat.iter_pos shr_1 p (shr_1 r))).
    { rewrite IH by exact H1. apply Z.div_pos; [exact H1 | apply Z.pow_pos_nonneg; lia]. }
    rewrite IH by exact H2. rewrite IH by exact H1. rewrite shr_m_shr_1 by exact Hr.
    rewrite !Z.div_div by (try apply Z.pow_pos_nonneg; lia).
    f_equal. rewrite (Pos2Z.inj_xI p).
    replace (2 * Zpos p + 1) with (Z.succ (Zpos p + Zpos p)) by lia.
    rewrite Z.pow_succ_r, Z.pow_add_r by lia. lia.
  - assert (H1 : 0 <= shr_m (SpecFloat.iter_pos shr_1 p r)).
    { rewrite IH by exact Hr. apply Z.div_pos; [exact Hr | apply Z.pow_pos_nonneg; lia]. }
    rewrite IH by exact H1. rewrite IH by exact Hr.
    rewrite Z.div_div by (try apply Z.pow_pos_nonneg; lia).
    f_equal. rewrite (Pos2Z.inj_xO p).
    replace (2 * Zpos p) with (Zpos p + Zpos p) by lia.
    rewrite Z.pow_add_r by lia. reflexivity.
  - rewrite shr_m_shr_1 by exact Hr. reflexivity.
Qed.

Lemma shr_fexp_pos (m : positive) (e : Z) (l : location) :
  emin <= e ->
  0 < shr_m (fst (shr_fexp prec emax (Zpos m) e l)) /\
  emin <= snd (shr_fexp prec emax (Zpos m) e l).
Proof.
  intros He. unfold shr_fexp, shr, fexp. cbn [Zdigits2].
  pose proof (digits2_pos_bounds m) as [Hlo _].
  assert (Hm : shr_m (shr_record_of_loc (Zpos m) l) = Zpos m)
    by (destruct l as [|[]]; reflexivity).
  destruct (Z.max (Zpos (digits2_pos m) + e - prec) (SpecFloat.emin prec emax) - e)
    as [|p|p] eqn:Hn; cbn [fst snd]; rewrite ?Hm; try (split; [lia | exact He]).
  split; [|lia].
  rewrite shr_m_iter by (rewrite Hm; lia). rewrite Hm.
  apply Z.div_str_pos. split; [apply Z.pow_pos_nonneg; lia|].
  etransitivity; [|exact Hlo].
  apply Z.pow_le_mono_r; [lia|].
  unfold prec, emax, SpecFloat.emin in *. lia.
Qed.

Lemma round_nearest_even_ge (m : Z) (l : location) : m <= round_nearest_even m l.
Proof.
  unfold round_nearest_even. destruct l as [|[]]; try lia.
  destruct (Z.even m); lia.
Qed.

Lemma binary_round_aux_negative (m : positive) (e : Z) (l : location) :
  emin <= e -> SFnegative (binary_round_aux prec emax true (Zpos m) e l).
Proof.
  intros He. unfold binary_round_aux.
  pose proof (shr_fexp_pos m e l He) as [H1 H2].
  destruct (shr_fexp prec emax (Zpos m) e l) as [mrs' e']. cbn [fst snd] in H1, H2.
  pose proof (round_nearest_even_ge (shr_m mrs') (loc_of_shr_record mrs')) as H3.
  destruct (round_nearest_even (shr_m mrs') (loc_of_shr_record mrs')) as [|q|q]; try lia.
  pose proof (shr_fexp_pos q e' loc_Exact H2) as [H4 _].
  destruct (shr_fexp prec emax (Zpos q) e' loc_Exact) as [mrs'' e'']. cbn [fst] in H4.
  destruct (shr_m mrs'') as [|r|r]; try lia.
  destruct (e'' <=? emax - prec); exact I.
Qed.

Lemma binary_round_negative (m : positive) (e : Z) :
  emin <= e -> SFnegative (binary_round prec emax true m e).
Proof.
  intros He. unfold binary_round.
  destruct (shl_align m e (fexp prec emax (Zpos (digits2_pos m) + e))) as [mz ez] eqn:Hs.
  apply binary_round_aux_negative.
  unfold shl_align in Hs.
  destruct (fexp prec emax (Zpos (digits2_pos m) + e) - e) eqn:Hd;
    injection Hs as <- <-; try exact He.
  unfold fexp. lia.
Qed.

Lemma pos_iter_xO (m d : positive) : Zpos (Pos.iter xO m d) = Zpos m * 2 ^ Zpos d.
Proof.
  induction d as [|d IH] using Pos.peano_ind.
  - cbn. lia.
  - rewrite Pos.iter_succ, (Pos2Z.inj_xO (Pos.iter xO m d)), IH, Pos2Z.inj_succ, Z.pow_succ_r by lia. lia.
Qed.

Lemma shl_align_mantissa (m : positive) (e ez : Z) :
  ez <= e -> Zpos (fst (shl_align m e ez)) = Zpos m * 2 ^ (e - ez).
Proof.
  intros Hle. unfold shl_align.
  destruct (ez - e) as [|d|d] eqn:Hd; cbn [fst]; try lia.
  - replace (e - ez) with 0 by lia. lia.
  - rewrite pos_iter_xO. f_equal. f_equal. lia.
Qed.

Lemma bounded_facts (m : positive) (e : Z) :
  bounded prec emax m e = true ->
  emin <= e /\ Zpos (digits2_pos m) <= prec /\
  (emin < e -> Zpos (digits2_pos m) = prec).
Proof.
  unfold bounded, canonical_mantissa, fexp. intros H.
  apply andb_prop in H as [H _]. apply Z.eqb_eq in H. lia.
Qed.

Lemma aligned_lt (m1 m2 : positive) (e1 e2 : Z) :
  bounded prec emax m1 e1 = true -> bounded prec emax m2 e2 = true ->
  e1 < e2 ->
  Zpos (fst (shl_align m1 e1 (Z.min e1 e2))) < Zpos (fst (shl_align m2 e2 (Z.min e1 e2))) /\
  Zpos (fst (shl_align m1 e1 (Z.min e2 e1))) < Zpos (fst (shl_align m2 e2 (Z.min e2 e1))).
Proof.
  intros B1 B2 Hlt.
  apply bounded_facts in B1 as (E1 & D1 & _). apply bounded_facts in B2 as (E2 & _ & D2).
  specialize (D2 ltac:(lia)).
  pose proof (digits2_pos_bounds m1) as [_ U1].
  pose proof (digits2_pos_bounds m2) as [L2 _].
  rewrite (Z.min_l e1 e2), (Z.min_r e2 e1) by lia.
  rewrite !shl_align_mantissa by lia.
  replace (e1 - e1) with 0 by lia.
  assert (H2 : 2 ^ 1 <= 2 ^ (e2 - e1)) by (apply Z.pow_le_mono_r; lia).
  assert (H3 : 2 ^ Zpos (digits2_pos m1) <= 2 ^ prec) by (apply Z.pow_le_mono_r; lia).
  rewrite D2 in L2.
  assert (H4 : 2 ^ prec = 2 * 2 ^ (prec - 1)) by reflexivity.
  change (2 ^ 1) with 2 in H2. change (2 ^ 0) with 1.
  split; nia.
Qed.

Lemma SFsub_negative (x y : spec_float) :
  SpecFloat.valid_binary prec emax x = true -> SpecFloat.valid_binary prec emax y = true ->
  SFcompare x y = Some Lt -> SFnegative (SFsub prec emax x y).
Proof.
  intros Vx Vy Hc.
  destruct x as [sx|sx| |sx mx ex], y as [sy|sy| |sy my ey];
    try discriminate Hc;
    try (cbn [SFsub SFcompare] in *;
         repeat match goal with s : bool |- _ => destruct s end;
         first [discriminate Hc | exact I]).
  cbn [SFsub SFcompare] in *.
  cbn [SpecFloat.valid_binary] in Vx, Vy.
    pose proof (bounded_facts _ _ Vx) as (Ex & _). pose proof (bounded_facts _ _ Vy) as (Ey & _).
    set (ez := Z.min ex ey).
    assert (Hneg : cond_Zopp sx (Zpos (fst (shl_align mx ex ez))) -
                   cond_Zopp sy (Zpos (fst (shl_align my ey ez))) < 0).
    { subst ez. destruct sx, sy; cbn [cond_Zopp]; try discriminate Hc; try lia.
      - destruct (Z.compare ex ey) eqn:Hcmp; try discriminate Hc.
        + apply Z.compare_eq in Hcmp. subst ey.
          rewrite Z.min_id, !shl_align_mantissa by lia.
          replace (ex - ex) with 0 by lia. change (2 ^ 0) with 1.
          change (Pos.compare_cont Eq mx my) with (Pos.compare mx my) in Hc.
          destruct (Pos.compare mx my) eqn:Hm; try discriminate Hc.
          apply Pos.compare_gt_iff in Hm. lia.
        + apply Z.compare_gt_iff in Hcmp.
          pose proof (aligned_lt my mx ey ex Vy Vx Hcmp) as [_ H]. lia.
      - destruct (Z.compare ex ey) eqn:Hcmp; try discriminate Hc.
        + apply Z.compare_eq in Hcmp. subst ey.
          rewrite Z.min_id, !shl_align_mantissa by lia.
          replace (ex - ex) with 0 by lia. change (2 ^ 0) with 1.
          change (Pos.compare_cont Eq mx my) with (Pos.compare mx my) in Hc.
          injection Hc as Hc. change (mx < my)%positive in Hc. lia.
        + apply Z.compare_lt_iff in Hcmp.
          pose proof (aligned_lt mx my ex ey Vx Vy Hcmp) as [H _]. lia. }
    fold ez.
    destruct (cond_Zopp sx (Zpos (fst (shl_align mx ex ez))) -
              cond_Zopp sy (Zpos (fst (shl_align my ey ez)))) as [|q|q]; try lia.
    cbn [binary_normalize]. apply binary_round_negative. subst ez. lia.
Qed.

Lemma SFnegative_ltb (s : spec_float) : SFnegative s -> SFltb s (S754_zero false) = true.
Proof. destruct s as [|[]| |[]]; cbn; intros H; try contradiction; reflexivity. Qed.

Lemma sub_negative (a b : float) : (b <? a)%float = true -> (b - a <? 0)%float = true.
Proof.
  rewrite !FloatAxioms.ltb_spec, FloatAxioms.sub_spec. intros H.
  change (Prim2SF 0) with (S754_zero false).
  apply SFnegative_ltb. apply SFsub_negative; try apply Prim2SF_valid.
  unfold SFltb in H.
  destruct (SFcompare (Prim2SF b) (Prim2SF a)) as [[]|]; try discriminate H. reflexivity.
Qed.

Lemma uniformly_decreasing_step (coord : list float) (step : float) :
  uniformly_decreasing coord ->
  spacing coord = Some step ->
  (step <? 0)%float = true.
Proof.
  intros [_ Hdec] Hs. destruct coord as [|x0 [|x1 tl]]; try discriminate Hs.
  unfold spacing in Hs. rewrite coord_diffs_cons2 in Hs. injection Hs as <-.
  unfold decreasing in Hdec. cbn [drop zip zip_with] in Hdec.
  inversion Hdec as [|p ps Hlt _]; subst. now apply sub_negative.
Qed.

Lemma frange_decreasing (start : float) (n : nat) :
  forallb (fun p => (p.2 <? p.1)%float)
          (zip (frange start (-1) n) (drop 1 (frange start (-1) n))) = true ->
  regular (frange start (-1) n) ->
  uniformly_decreasing (frange start (-1) n).
Proof. intros Hdec Hreg. split; [exact Hreg | now apply forallb_Forall_true]. Qed.

Lemma frange_down_decreasing : uniformly_decreasing (frange 90 (-1) 181).
Proof.
  apply frange_decreasing; [vm_compute; reflexivity | ].
  exists (-1)%float. split; vm_compute; reflexivity.
Qed.

(** ** Grid Extractor: facts *)

(** One turn of the loop on an axis of two points or more. *)
Lemma extract_loop_step (grid : DataArray) (dim : string) (rest : list string)
    (region inc : list float) (coord : list float) :
  coords grid !! dim = Some coord ->
  (2 <= length coord)%nat ->
  exists step lo hi,
    spacing coord = Some step /\
    np_min coord = Return lo /\
    np_max coord = Return hi /\
    extract_loop grid (dim :: rest) region inc =
      if allclose (coord_diffs coord) step
      then extract_loop grid rest (region ++ [lo; hi]) (inc ++ [step])
      else Raise (GMTInvalidInput (irregular_msg dim)).
Proof.
  intros Hc Hlen. destruct (spacing_two coord Hlen) as (x0 & x1 & tl & -> & Hs).
  exists (x1 - x0)%float, (foldl fmin x0 (x1 :: tl)), (foldl fmax x0 (x1 :: tl)).
  split; [exact Hs | ]. do 2 (split; [reflexivity | ]).
  cbn [extract_loop]. unfold coord_values. rewrite Hc.
  cbn [mbind result_bind]. rewrite coord_diffs_cons2. cbn [item0].
  unfold mbind, result_bind.
  destruct (allclose _ _); reflexivity.
Qed.

(** One turn of the loop on an axis of fewer than two points. *)
Lemma extract_loop_short (grid : DataArray) (dim : string) (rest : list string)
    (region inc : list float) (coord : list float) :
  coords grid !! dim = Some coord ->
  (length coord < 2)%nat ->
  extract_loop grid (dim :: rest) region inc =
    Raise (IndexError "index 0 is out of bounds for axis 0 with size 0").
Proof.
  intros Hc Hlen. cbn [extract_loop]. unfold coord_values. rewrite Hc.
  cbn [mbind result_bind]. now rewrite (spacing_short coord Hlen).
Qed.

Section GridFacts.
Context {A : Type}.
Implicit Types (mem : gmap nat (list A)) (grid : DataArray).

Lemma dataarray_to_matrix_bad_dims mem grid :
  length (dims grid) <> 2%nat ->
  dataarray_to_matrix mem grid =
    Raise (GMTInvalidInput (bad_dims_msg (length (dims grid)))).
Proof.
  intros Hn. unfold dataarray_to_matrix.
  now destruct (Nat.eqb_spec (length (dims grid)) 2).
Qed.

Lemma dataarray_to_matrix_loop mem grid (d1 d2 : string) :
  dims grid = [d1; d2] ->
  dataarray_to_matrix mem grid =
    match extract_loop grid [d2; d1] [] [] with
    | Return (region, inc) =>
        Return ((as_c_contiguous mem (values grid)).1,
                ((as_c_contiguous mem (values grid)).2, region, inc))
    | Raise e => Raise e
    end.
Proof.
  intros Hd. unfold dataarray_to_matrix. rewrite Hd. cbn [length Nat.eqb negb rev app].
  destruct (extract_loop grid [d2; d1] [] []) as [[region inc]|e];
    cbn [mbind result_bind]; [ | reflexivity].
  now destruct (as_c_contiguous mem (values grid)).
Qed.

(** What the extractor does on a grid of two dimensions whose axes have
    two points or more. *)
Lemma dataarray_to_matrix_2d mem grid (d1 d2 : string) (c1 c2 : list float) :
  dims grid = [d1; d2] ->
  coords grid !! d1 = Some c1 ->
  coords grid !! d2 = Some c2 ->
  (2 <= length c1)%nat ->
  (2 <= length c2)%nat ->
  exists s1 lo1 hi1 s2 lo2 hi2,
    spacing c1 = Some s1 /\ np_min c1 = Return lo1 /\ np_max c1 = Return hi1 /\
    spacing c2 = Some s2 /\ np_min c2 = Return lo2 /\ np_max c2 = Return hi2 /\
    dataarray_to_matrix mem grid =
      if negb (allclose (coord_diffs c2) s2)
      then Raise (GMTInvalidInput (irregular_msg d2))
      else if negb (allclose (coord_diffs c1) s1)
      then Raise (GMTInvalidInput (irregular_msg d1))
      else Return ((as_c_contiguous mem (values grid)).1,
                   ((as_c_contiguous mem (values grid)).2,
                    [lo2; hi2; lo1; hi1], [s2; s1])).
Proof.
  intros Hd Hc1 Hc2 Hl1 Hl2.
  destruct (extract_loop_step grid d2 [d1] [] [] c2 Hc2 Hl2)
    as (s2 & lo2 & hi2 & Hs2 & Hlo2 & Hhi2 & Hstep2).
  destruct (extract_loop_step grid d1 [] [lo2; hi2] [s2] c1 Hc1 Hl1)
    as (s1 & lo1 & hi1 & Hs1 & Hlo1 & Hhi1 & Hstep1).
  exists s1, lo1, hi1, s2, lo2, hi2. repeat split; try assumption.
  rewrite (dataarray_to_matrix_loop mem grid d1 d2 Hd), Hstep2.
  destruct (allclose (coord_diffs c2) s2); cbn [negb app]; [ | reflexivity].
  cbn [app] in Hstep1. rewrite Hstep1.
  now destruct (allclose (coord_diffs c1) s1).
Qed.


Lemma dataarray_to_matrix_inv mem grid mem' (m : ndarray)
    (region inc : list float) :
  dataarray_to_matrix mem grid = Return (mem', (m, region, inc)) ->
  exists d1 d2 c1 c2,
    dims grid = [d1; d2] /\
    coords grid !! d1 = Some c1 /\ coords grid !! d2 = Some c2 /\
    (2 <= length c1)%nat /\ (2 <= length c2)%nat.
Proof.
  intros Hret.
  destruct (decide (length (dims grid) = 2%nat)) as [Hlen|Hlen].
  2:{ rewrite (dataarray_to_matrix_bad_dims mem grid Hlen) in Hret.
      discriminate. }
  destruct (dims grid) as [|d1 [|d2 [|d3 ds]]] eqn:Hd; try discriminate.
  rewrite (dataarray_to_matrix_loop mem grid d1 d2 Hd) in Hret.
  exists d1, d2.
  destruct (coords grid !! d2) as [c2|] eqn:Hc2.
  2:{ cbn [extract_loop] in Hret. unfold coord_values in Hret.
      rewrite Hc2 in Hret. discriminate. }
  destruct (le_lt_dec 2 (length c2)) as [Hl2|Hl2].
  2:{ rewrite (extract_loop_short grid d2 [d1] [] [] c2 Hc2 Hl2) in Hret.
      discriminate. }
  destruct (extract_loop_step grid d2 [d1] [] [] c2 Hc2 Hl2)
    as (s2 & lo2 & hi2 & _ & _ & _ & Hstep2).
  rewrite Hstep2 in Hret.
  destruct (allclose (coord_diffs c2) s2); [ | discriminate].
  destruct (coords grid !! d1) as [c1|] eqn:Hc1.
  2:{ cbn [extract_loop] in Hret. unfold coord_values in Hret.
      rewrite Hc1 in Hret. discriminate. }
  destruct (le_lt_dec 2 (length c1)) as [Hl1|Hl1].
  2:{ rewrite (extract_loop_short grid d1 [] _ _ c1 Hc1 Hl1) in Hret.
      discriminate. }
  exists c1, c2. repeat split; assumption.
Qed.


(** X1: the region of an accepted grid is a box: west is at most east
    and south at most north. *)
Theorem dataarray_to_matrix_region_box mem grid mem' (m : ndarray)
    (region inc : list float) :
  dataarray_to_matrix mem grid = Return (mem', (m, region, inc)) ->
  exists west east south north,
    region = [west; east; south; north] /\
    (west <=? east)%float = true /\ (south <=? north)%float = true.
Proof.
  intros Hret.
  destruct (dataarray_to_matrix_inv mem grid mem' m region inc Hret)
    as (d1 & d2 & c1 & c2 & Hd & Hc1 & Hc2 & Hl1 & Hl2).
  destruct (dataarray_to_matrix_2d mem grid d1 d2 c1 c2 Hd Hc1 Hc2 Hl1 Hl2)
    as (s1 & lo1 & hi1 & s2 & lo2 & hi2
        & Hs1 & Hlo1 & Hhi1 & Hs2 & Hlo2 & Hhi2 & Heq).
  rewrite Hret in Heq.
  destruct (allclose (coord_diffs c2) s2) eqn:Hclose2; [ | discriminate].
  destruct (allclose (coord_diffs c1) s1) eqn:Hclose1; [ | discriminate].
  cbn [negb] in Heq. injection Heq as _ _ -> _.
  exists lo2, hi2, lo1, hi1. split; [reflexivity | split].
  - apply (regular_min_le_max c2); [now exists s2 | assumption..].
  - apply (regular_min_le_max c1); [now exists s1 | assumption..].
Qed.

(** C5: a grid whose number of dimensions is not two is refused with
    the invalid-input error, and the message holds that number. *)
Theorem dataarray_to_matrix_wrong_dims mem grid :
  length (dims grid) <> 2%nat ->
  dataarray_to_matrix mem grid =
    Raise (GMTInvalidInput
             ("Invalid number of grid dimensions '"
              +:+ pretty (length (dims grid)) +:+ "'. Must be 2.")) /\
  str_contains (bad_dims_msg (length (dims grid)))
               (pretty (length (dims grid))) = true.
Proof.
  intros Hn. split.
  - now apply dataarray_to_matrix_bad_dims.
  - apply str_contains_app.
Qed.


End GridFacts.

(** C9: a grid that is a single row, a slice [grid[90:91, :]], has a
    latitude axis of one point; the extractor fails on it with Python's
    [IndexError], which is none of the typed error kinds. *)
Theorem dataarray_to_matrix_single_point_axis :
  dataarray_to_matrix relief_mem (equator_row row_vals) =
    Raise (IndexError "index 0 is out of bounds for axis 0 with size 0") /\
  is_typed_error
    (IndexError "index 0 is out of bounds for axis 0 with size 0") = false.
Proof.
  split; [ | reflexivity].
  rewrite (dataarray_to_matrix_loop relief_mem (equator_row row_vals)
             "lat" "lon" eq_refl).
  assert (H : extract_loop (equator_row row_vals) ["lon"; "lat"] [] [] =
              Raise (IndexError "index 0 is out of bounds for axis 0 with size 0"))
    by (vm_compute; reflexivity).
  now rewrite H.
Qed.



(** C5 on a grid of three dimensions. *)
Lemma dataarray_to_matrix_wrong_dims_witness :
  dataarray_to_matrix small_mem (cube small_vals) =
    Raise (GMTInvalidInput "Invalid number of grid dimensions '3'. Must be 2.") /\
  str_contains "Invalid number of grid dimensions '3'. Must be 2." "3" = true.
Proof.
  apply (dataarray_to_matrix_wrong_dims small_mem (cube small_vals)).
  discriminate.
Defined.

Lemma earth_relief_loop (vals : ndarray) :
  extract_loop (earth_relief vals) ["lon"; "lat"] [] [] =
    Return ([-180; 180; -90; 90]%float, [1; 1]%float).
Proof. vm_compute. reflexivity. Qed.

Lemma north_up_loop (vals : ndarray) :
  extract_loop (north_up vals) ["lon"; "lat"] [] [] =
    Return ([-180; 180; -90; 90]%float, [1; -1]%float).
Proof. vm_compute. reflexivity. Qed.

(** C1: when the extractor accepts a grid, the grid has two dimensions
    [d1] (rows) and [d2] (columns); the region is the minimum and the
    maximum of the coordinates of [d2] followed by those of [d1], and the
    increment is the spacing of [d2] followed by that of [d1]; the matrix
    is C-contiguous and has the shape of the grid's values.  For the
    grid with latitudes -90..90 in rows and longitudes -180..180 in
    columns, one degree apart, the region is [-180, 180, -90, 90], the
    increment [1, 1] and the matrix a C-contiguous array of shape
    (181, 361). *)
Theorem dataarray_to_matrix_region_order :
  (forall (A : Type) (mem mem' : gmap nat (list A)) (grid : DataArray)
          (m : ndarray) (region inc : list float),
     dataarray_to_matrix mem grid = Return (mem', (m, region, inc)) ->
     exists d1 d2 c1 c2 s1 lo1 hi1 s2 lo2 hi2,
       dims grid = [d1; d2] /\
       coords grid !! d1 = Some c1 /\ coords grid !! d2 = Some c2 /\
       spacing c1 = Some s1 /\ np_min c1 = Return lo1 /\
       np_max c1 = Return hi1 /\
       spacing c2 = Some s2 /\ np_min c2 = Return lo2 /\
       np_max c2 = Return hi2 /\
       region = [lo2; hi2; lo1; hi1] /\ inc = [s2; s1] /\
       c_contiguous m = true /\ shape m = shape (values grid)) /\
  (forall (A : Type) (mem : gmap nat (list A)) (vals : ndarray),
     shape vals = [181; 361]%nat ->
     exists mem' m,
       dataarray_to_matrix mem (earth_relief vals) =
         Return (mem', (m, [-180; 180; -90; 90]%float, [1; 1]%float)) /\
       shape m = [181; 361]%nat /\ c_contiguous m = true).
Proof.
  split.
  - intros A mem mem' grid m region inc Hret.
    destruct (dataarray_to_matrix_inv mem grid mem' m region inc Hret)
      as (d1 & d2 & c1 & c2 & Hd & Hc1 & Hc2 & Hl1 & Hl2).
    destruct (dataarray_to_matrix_2d mem grid d1 d2 c1 c2 Hd Hc1 Hc2 Hl1 Hl2)
      as (s1 & lo1 & hi1 & s2 & lo2 & hi2
          & Hs1 & Hlo1 & Hhi1 & Hs2 & Hlo2 & Hhi2 & Heq).
    exists d1, d2, c1, c2, s1, lo1, hi1, s2, lo2, hi2.
    rewrite Hret in Heq.
    destruct (allclose (coord_diffs c2) s2); [ | discriminate].
    destruct (allclose (coord_diffs c1) s1); [ | discriminate].
    cbn [negb] in Heq. injection Heq as -> -> -> ->.
    repeat split; try assumption.
    + apply as_c_contiguous_flag.
    + apply as_c_contiguous_shape.
  - intros A mem vals Hshape.
    exists (as_c_contiguous mem vals).1, (as_c_contiguous mem vals).2.
    rewrite (dataarray_to_matrix_loop mem (earth_relief vals) "lat" "lon"
               eq_refl), earth_relief_loop.
    split; [reflexivity | split].
    + now rewrite as_c_contiguous_shape.
    + apply as_c_contiguous_flag.
Qed.

Lemma relief_accepted :
  dataarray_to_matrix relief_mem (earth_relief relief_vals) =
    Return (relief_mem,
            (relief_vals, [-180; 180; -90; 90]%float, [1; 1]%float)).
Proof.
  now rewrite (dataarray_to_matrix_loop relief_mem (earth_relief relief_vals)
                 "lat" "lon" eq_refl), earth_relief_loop.
Qed.

(** C1 on the global relief grid held in row-major order. *)
Lemma dataarray_to_matrix_region_order_witness :
  exists d1 d2 c1 c2 s1 lo1 hi1 s2 lo2 hi2,
    dims (earth_relief relief_vals) = [d1; d2] /\
    coords (earth_relief relief_vals) !! d1 = Some c1 /\
    coords (earth_relief relief_vals) !! d2 = Some c2 /\
    spacing c1 = Some s1 /\ np_min c1 = Return lo1 /\ np_max c1 = Return hi1 /\
    spacing c2 = Some s2 /\ np_min c2 = Return lo2 /\ np_max c2 = Return hi2 /\
    [-180; 180; -90; 90]%float = [lo2; hi2; lo1; hi1] /\
    [1; 1]%float = [s2; s1] /\
    c_contiguous relief_vals = true /\
    shape relief_vals = shape (values (earth_relief relief_vals)).
Proof.
  exact (proj1 dataarray_to_matrix_region_order float relief_mem relief_mem
           (earth_relief relief_vals) relief_vals _ _ relief_accepted).
Defined.

(** C10, amended: on a grid of two dimensions whose float64 coordinates
    are evenly spaced along both, the extractor succeeds, and the
    increment of an axis whose coordinates are uniformly decreasing, each
    less than the one before it, is its first difference, which is
    negative, while the region still holds the minimum of that axis
    before its maximum, the first at most the second.  So it is for the
    global grid with the north in the first row: the increment is
    [1, -1] and the region [-180, 180, -90, 90]. *)
Theorem dataarray_to_matrix_decreasing_axis :
  (forall (A : Type) (mem : gmap nat (list A)) (grid : DataArray)
          (d1 d2 : string) (c1 c2 : list float),
     labeled_grid grid d1 d2 c1 c2 ->
     exists s1 lo1 hi1 s2 lo2 hi2,
       spacing c1 = Some s1 /\ np_min c1 = Return lo1 /\
       np_max c1 = Return hi1 /\
       spacing c2 = Some s2 /\ np_min c2 = Return lo2 /\
       np_max c2 = Return hi2 /\
       dataarray_to_matrix mem grid =
         Return ((as_c_contiguous mem (values grid)).1,
                 ((as_c_contiguous mem (values grid)).2,
                  [lo2; hi2; lo1; hi1], [s2; s1])) /\
       (lo1 <=? hi1)%float = true /\ (lo2 <=? hi2)%float = true /\
       (uniformly_decreasing c1 -> (s1 <? 0)%float = true) /\
       (uniformly_decreasing c2 -> (s2 <? 0)%float = true)) /\
  (forall (A : Type) (mem : gmap nat (list A)) (vals : ndarray),
     labeled_grid (north_up vals) "lat" "lon"
       (frange 90 (-1) 181) (frange (-180) 1 361) /\
     uniformly_decreasing (frange 90 (-1) 181) /\
     dataarray_to_matrix mem (north_up vals) =
       Return ((as_c_contiguous mem vals).1,
               ((as_c_contiguous mem vals).2,
                [-180; 180; -90; 90]%float, [1; -1]%float))).
Proof.
  split.
  - intros A mem grid d1 d2 c1 c2 (Hd & Hc1 & Hc2 & Hr1 & Hr2).
    destruct (dataarray_to_matrix_2d mem grid d1 d2 c1 c2 Hd Hc1 Hc2
                (regular_length c1 Hr1) (regular_length c2 Hr2))
      as (s1 & lo1 & hi1 & s2 & lo2 & hi2
          & Hs1 & Hlo1 & Hhi1 & Hs2 & Hlo2 & Hhi2 & Heq).
    exists s1, lo1, hi1, s2, lo2, hi2.
    pose proof (regular_min_le_max c1 lo1 hi1 Hr1 Hlo1 Hhi1) as Hord1.
    pose proof (regular_min_le_max c2 lo2 hi2 Hr2 Hlo2 Hhi2) as Hord2.
    destruct Hr1 as (s1' & Hs1' & Hclose1). destruct Hr2 as (s2' & Hs2' & Hclose2).
    rewrite Hs1 in Hs1'. injection Hs1' as <-.
    rewrite Hs2 in Hs2'. injection Hs2' as <-.
    rewrite Hclose1, Hclose2 in Heq. cbn [negb] in Heq.
    repeat split; try assumption.
    + intros Hdec. now apply (uniformly_decreasing_step c1).
    + intros Hdec. now apply (uniformly_decreasing_step c2).
  - intros A mem vals. split; [ | split].
    + repeat split; try reflexivity.
      * apply frange_down_decreasing.
      * exists 1%float. split; vm_compute; reflexivity.
    + apply frange_down_decreasing.
    + now rewrite (dataarray_to_matrix_loop mem (north_up vals) "lat" "lon"
                     eq_refl), north_up_loop.
Qed.

(** C10 on the global relief grid with the north in the first row. *)
Lemma dataarray_to_matrix_decreasing_axis_witness :
  exists s1 lo1 hi1 s2 lo2 hi2,
    spacing (frange 90 (-1) 181) = Some s1 /\
    np_min (frange 90 (-1) 181) = Return lo1 /\
    np_max (frange 90 (-1) 181) = Return hi1 /\
    spacing (frange (-180) 1 361) = Some s2 /\
    np_min (frange (-180) 1 361) = Return lo2 /\
    np_max (frange (-180) 1 361) = Return hi2 /\
    dataarray_to_matrix relief_mem (north_up relief_vals) =
      Return ((as_c_contiguous relief_mem relief_vals).1,
              ((as_c_contiguous relief_mem relief_vals).2,
               [lo2; hi2; lo1; hi1], [s2; s1])) /\
    (lo1 <=? hi1)%float = true /\ (lo2 <=? hi2)%float = true /\
    (uniformly_decreasing (frange 90 (-1) 181) -> (s1 <? 0)%float = true) /\
    (uniformly_decreasing (frange (-180) 1 361) -> (s2 <? 0)%float = true).
Proof.
  exact (proj1 dataarray_to_matrix_decreasing_axis float relief_mem
           (north_up relief_vals) "lat" "lon" _ _
           (proj1 (proj2 dataarray_to_matrix_decreasing_axis float relief_mem
                     relief_vals))).
Defined.

(** C10 as it was stated fails when only one axis is known to be
    uniformly decreasing: the latitudes of these two grids are, and the
    extractor fails on their longitudes, unevenly spaced in the first and
    a single point in the second.  It also needs float64 coordinates: in
    the dtype [uint8] the differences of the decreasing [2, 1, 0] wrap
    around to 255. *)
Lemma decreasing_axis_other_axis_fails :
  uniformly_decreasing (frange 1 (-1) 3) /\
  coords (north_up_uneven small_vals) !! "lat" = Some (frange 1 (-1) 3) /\
  dataarray_to_matrix small_mem (north_up_uneven small_vals) =
    Raise (GMTInvalidInput
             "Grid appears to have irregular spacing in the 'lon' dimension.") /\
  coords (north_up_column column_vals) !! "lat" = Some (frange 1 (-1) 3) /\
  dataarray_to_matrix small_mem (north_up_column column_vals) =
    Raise (IndexError "index 0 is out of bounds for axis 0 with size 0") /\
  coord_diffs_uint8 [2; 1; 0] = [255; 255].
Proof.
  split; [ | repeat split; vm_compute; reflexivity].
  apply frange_decreasing; [vm_compute; reflexivity | ].
  exists (-1)%float. split; vm_compute; reflexivity.
Qed.

(** The region of the global relief grid is a box. *)
Lemma dataarray_to_matrix_region_box_witness :
  exists west east south north,
    [-180; 180; -90; 90]%float = [west; east; south; north] /\
    (west <=? east)%float = true /\ (south <=? north)%float = true.
Proof.
  exact (dataarray_to_matrix_region_box relief_mem (earth_relief relief_vals)
           relief_mem relief_vals _ _ relief_accepted).
Defined.

(** ** Array Normalizer: facts *)

Section NormalizerFacts.
Context {A : Type}.
Implicit Types (mem : gmap nat (list A)) (a : ndarray).

Lemma getitem_weaken mem mem' a (idx : list nat) (x : A) :
  mem ⊆ mem' -> getitem mem a idx = Some x -> getitem mem' a idx = Some x.
Proof.
  intros Hsub. unfold getitem.
  destruct (mem !! base a) as [buf|] eqn:Hb; [ | discriminate].
  now rewrite (lookup_weaken _ _ _ _ Hb Hsub).
Qed.

(** A valid view reads the same in any memory that extends its own. *)
Lemma ravel_weaken mem mem' a :
  mem ⊆ mem' -> valid mem a = true ->
  ravel mem' a = ravel mem a /\ valid mem' a = true.
Proof.
  intros Hsub Hvalid. rewrite valid_spec in Hvalid. split.
  - unfold ravel. apply list_fmap_ext. intros i idx Hi.
    destruct (Hvalid idx) as [x Hx]; [now apply list_elem_of_lookup_2 in Hi | ].
    rewrite Hx. now apply getitem_weaken with mem.
  - apply valid_spec. intros idx Hin. destruct (Hvalid idx Hin) as [x Hx].
    exists x. now apply getitem_weaken with mem.
Qed.

Lemma as_c_contiguous_extends mem a : mem ⊆ (as_c_contiguous mem a).1.
Proof.
  unfold as_c_contiguous. destruct (c_contiguous a); cbn [negb]; [reflexivity | ].
  apply copy_C_extends.
Qed.

(** A row-major view of a new buffer reads the buffer from its start. *)
Lemma fresh_buffer_ravel mem (new : nat) (elems : list A) (shp : list nat) :
  length elems = size_of shp ->
  ravel (<[new := elems]> mem)
        {| base := new; offset := 0; shape := shp; strides := c_strides shp |}
  = Some <$> elems.
Proof.
  intros Hlen. unfold ravel. cbn [shape]. apply list_eq. intros i.
  rewrite !list_lookup_fmap.
  destruct (ndindex shp !! i) as [idx|] eqn:Hi; cbn [fmap option_fmap option_map].
  - assert (Hlt : (i < size_of shp)%nat).
    { rewrite <- length_ndindex. now apply lookup_lt_Some in Hi. }
    assert (Hpos : flat_pos (c_strides shp) idx = Z.of_nat i).
    { pose proof (f_equal (fun l => l !! i) (flat_pos_ndindex shp)) as H.
      cbn beta in H. rewrite !list_lookup_fmap, Hi in H.
      rewrite lookup_seq_lt in H by exact Hlt. now injection H. }
    unfold getitem. cbn [base offset strides].
    rewrite lookup_insert_eq. cbn [mbind option_bind]. rewrite Hpos.
    destruct (decide (0 <= 0 + Z.of_nat i)) as [_|Hneg]; [ | lia].
    replace (Z.to_nat (0 + Z.of_nat i)) with i by lia.
    destruct (lookup_lt_is_Some_2 elems i) as [x Hx]; [lia | ].
    now rewrite Hx.
  - apply lookup_ge_None in Hi. rewrite length_ndindex in Hi.
    rewrite (proj2 (lookup_ge_None elems i)) by lia. reflexivity.
Qed.

Lemma ravel_all_Some_valid mem a (elems : list A) :
  ravel mem a = Some <$> elems -> valid mem a = true.
Proof.
  intros Hr. apply valid_spec. intros idx Hin.
  apply list_elem_of_lookup in Hin as [i Hi].
  apply (f_equal (fun l => l !! i)) in Hr. unfold ravel in Hr. cbn beta in Hr.
  rewrite !list_lookup_fmap, Hi in Hr. cbn in Hr.
  destruct (elems !! i) as [x|]; [ | discriminate].
  injection Hr as ->. now exists x.
Qed.

Lemma _as_array_spec mem (v : @vector A) :
  vector_valid mem v = true ->
  mem ⊆ (_as_array mem v).1 /\
  valid (_as_array mem v).1 (_as_array mem v).2 = true /\
  (forall a, vector_array v = Some a ->
             _as_array mem v = (mem, a)).
Proof.
  destruct v as [arr|arr|items]; cbn [_as_array vector_valid vector_array fst snd];
    intros Hv;
    try (split; [reflexivity | split; [exact Hv | now intros a [= <-]]]).
  unfold asarray_seq. cbn [fst snd].
  assert (Hr := fresh_buffer_ravel mem (fresh (dom mem)) items [length items]).
  cbn [c_strides size_of foldr] in Hr. rewrite Nat.mul_1_r in Hr.
  specialize (Hr eq_refl). split; [ | split; [ | discriminate]].
  - apply insert_subseteq, not_elem_of_dom, is_fresh.
  - now apply ravel_all_Some_valid with items.
Qed.

Lemma _as_array_shape mem (v : @vector A) :
  shape (_as_array mem v).2 = vector_shape v.
Proof. now destruct v. Qed.

Lemma vector_weaken mem mem' (v : @vector A) :
  mem ⊆ mem' -> vector_valid mem v = true -> vector_valid mem' v = true.
Proof.
  intros Hsub. destruct v as [arr|arr|items]; cbn [vector_valid];
    intros Hv; try exact (proj2 (ravel_weaken mem mem' arr Hsub Hv)).
  reflexivity.
Qed.

(** The values of the arrays and the series, read in the memory [mem0]
    the normalizer started from, when it has got as far as [mem]. *)
Lemma vectors_to_arrays_ravel mem0 (vectors : list (@vector A)) : forall mem,
  mem0 ⊆ mem ->
  Forall (fun v => vector_valid mem0 v = true) vectors ->
  mem ⊆ (vectors_to_arrays mem vectors).1 /\
  Forall2 (fun v arr =>
             valid (vectors_to_arrays mem vectors).1 arr = true /\
             forall a, vector_array v = Some a ->
                       ravel (vectors_to_arrays mem vectors).1 arr
                       = ravel mem0 a)
          vectors (vectors_to_arrays mem vectors).2.
Proof.
  induction vectors as [|v vectors IH]; intros mem Hsub0 Hall.
  { split; [reflexivity | constructor]. }
  inversion Hall as [|v' vs' Hv0 Hrest]; subst.
  pose proof (vector_weaken mem0 mem v Hsub0 Hv0) as Hv.
  cbn [vectors_to_arrays].
  destruct (_as_array_spec mem v Hv) as (Hsub1 & Hv1 & Hsame).
  destruct (_as_array mem v) as [mem1 arr]. cbn [fst snd] in *.
  pose proof (as_c_contiguous_extends mem1 arr) as Hsub2.
  pose proof (as_c_contiguous_ravel mem1 arr Hv1) as Hr2.
  pose proof (as_c_contiguous_valid mem1 arr Hv1) as Hv2.
  destruct (as_c_contiguous mem1 arr) as [mem2 arr']. cbn [fst snd] in *.
  assert (Hsub02 : mem0 ⊆ mem2) by (etrans; [ | eassumption]; etrans; eassumption).
  destruct (IH mem2 Hsub02 Hrest) as (Hsub3 & Hall3).
  destruct (vectors_to_arrays mem2 vectors) as [mem3 arrays]. cbn [fst snd] in *.
  destruct (ravel_weaken mem2 mem3 arr' Hsub3 Hv2) as [Hr4 Hv4].
  split; [etrans; [ | eassumption]; etrans; eassumption | ].
  constructor; [ | exact Hall3].
  split; [exact Hv4 | ]. intros a Ha.
  specialize (Hsame a Ha). injection Hsame as -> ->.
  rewrite Hr4, Hr2. apply ravel_weaken; [exact Hsub0 | ].
  destruct v as [arr0|arr0|items]; cbn [vector_array vector_valid] in *;
    try discriminate; injection Ha as <-; exact Hv0.
Qed.

(** X2: the normalizer gives one array for each vector, and the array at
    a position belongs to the vector at that position: it is C-contiguous,
    it has the shape of that vector, and it is that vector's own array
    when the vector is, or wraps, a C-contiguous array. *)
Theorem vectors_to_arrays_in_order mem (vectors : list (@vector A)) :
  length (vectors_to_arrays mem vectors).2 = length vectors /\
  Forall2 (fun v arr =>
             c_contiguous arr = true /\
             shape arr = vector_shape v /\
             forall a, vector_array v = Some a -> c_contiguous a = true ->
                       arr = a)
          vectors (vectors_to_arrays mem vectors).2.
Proof.
  split; [apply vectors_to_arrays_length | ].
  revert mem. induction vectors as [|v vectors IH]; intros mem; [constructor | ].
  cbn [vectors_to_arrays].
  pose proof (_as_array_shape mem v) as Hshape.
  assert (Hsame : forall a, vector_array v = Some a -> (_as_array mem v).2 = a)
    by (destruct v; cbn; congruence).
  destruct (_as_array mem v) as [mem1 arr]. cbn [snd] in Hshape, Hsame.
  pose proof (as_c_contiguous_flag mem1 arr) as Hf.
  pose proof (as_c_contiguous_shape mem1 arr) as Hs.
  assert (Hid : c_contiguous arr = true -> (as_c_contiguous mem1 arr).2 = arr).
  { intros Hc. unfold as_c_contiguous. now rewrite Hc. }
  destruct (as_c_contiguous mem1 arr) as [mem2 arr']. cbn [snd] in Hf, Hs, Hid.
  specialize (IH mem2). destruct (vectors_to_arrays mem2 vectors) as [mem3 arrays].
  cbn [snd] in *. constructor; [ | exact IH].
  split; [exact Hf | split; [congruence | ]].
  intros a Ha Hc. rewrite <- (Hsame a Ha) in Hc |- *. now apply Hid.
Qed.

(** X3: the normalizer changes no buffer that existed, every array it
    gives reads inside its buffer, and the array it gives for a vector
    that is, or wraps, an array holds the values of that array, index by
    index in row-major order. *)
Theorem vectors_to_arrays_values mem (vectors : list (@vector A)) :
  Forall (fun v => vector_valid mem v = true) vectors ->
  mem ⊆ (vectors_to_arrays mem vectors).1 /\
  Forall2 (fun v arr =>
             valid (vectors_to_arrays mem vectors).1 arr = true /\
             forall a, vector_array v = Some a ->
                       ravel (vectors_to_arrays mem vectors).1 arr
                       = ravel mem a)
          vectors (vectors_to_arrays mem vectors).2.
Proof. now apply vectors_to_arrays_ravel. Qed.

End NormalizerFacts.

(** X3 on the vectors of the docstring, with a list in place of the
    series. *)
Lemma vectors_to_arrays_values_witness :
  doc_mem ⊆ (vectors_to_arrays doc_mem
               [Array doc_column; Array doc_column1; Sequence [-1; -2; -3]]).1 /\
  Forall2 (fun v arr =>
             valid (vectors_to_arrays doc_mem
                      [Array doc_column; Array doc_column1;
                       Sequence [-1; -2; -3]]).1 arr = true /\
             forall a, vector_array v = Some a ->
                       ravel (vectors_to_arrays doc_mem
                                [Array doc_column; Array doc_column1;
                                 Sequence [-1; -2; -3]]).1 arr
                       = ravel doc_mem a)
          [Array doc_column; Array doc_column1; Sequence [-1; -2; -3]]
          (vectors_to_arrays doc_mem
             [Array doc_column; Array doc_column1; Sequence [-1; -2; -3]]).2.
Proof.
  apply (vectors_to_arrays_values doc_mem
           [Array doc_column; Array doc_column1; Sequence [-1; -2; -3]]).
  repeat constructor.
Defined.

(** ** Row-major layout: facts *)

Section LayoutFacts.
Context {A : Type}.
Implicit Types (mem : gmap nat (list A)) (a : ndarray).

Lemma size_of_cons (d : nat) (shp : list nat) :
  size_of (d :: shp) = (d * size_of shp)%nat.
Proof. reflexivity. Qed.

Lemma ndindex_cons_inv (d : nat) (shp : list nat) (idx : list nat) :
  idx ∈ ndindex (d :: shp) ->
  exists i idx', idx = i :: idx' /\ (i < d)%nat /\ idx' ∈ ndindex shp.
Proof.
  cbn [ndindex]. intros Hin.
  apply list_elem_of_bind in Hin as (i & Hin & Hi).
  apply list_elem_of_fmap in Hin as (idx' & -> & Hidx').
  apply elem_of_seq in Hi. exists i, idx'. repeat split; [lia | assumption].
Qed.

(** What numpy's contiguity scan establishes: either the array is empty,
    or the scan failed, or every index sits where row-major strides put
    it. *)
Lemma contig_scan_spec (shp : list nat) (sts : list Z) :
  length sts = length shp ->
  match foldr contig_step (Some (1, true)) (zip shp sts) with
  | None => size_of shp = 0%nat
  | Some (sd, true) =>
      sd = Z.of_nat (size_of shp) /\
      forall idx : list nat,
        idx ∈ ndindex shp -> flat_pos sts idx = flat_pos (c_strides shp) idx
  | Some (_, false) => True
  end.
Proof.
  revert sts. induction shp as [|d shp IH]; intros [|st sts] Hlen;
    try discriminate.
  { cbn. split; [reflexivity | ]. intros idx _. reflexivity. }
  injection Hlen as Hlen. specialize (IH sts Hlen).
  cbn [zip zip_with foldr].
  change (zip_with pair shp sts) with (zip shp sts).
  destruct (foldr contig_step (Some (1, true)) (zip shp sts)) as [[sd ok]|];
    cbn [contig_step].
  2:{ rewrite size_of_cons, IH. lia. }
  destruct (Nat.eqb_spec d 0) as [->|Hd0]; [reflexivity | ].
  destruct (Nat.eqb_spec d 1) as [->|Hd1].
  - destruct ok; [ | exact I]. destruct IH as [-> IH].
    split; [rewrite size_of_cons; f_equal; lia | ].
    intros idx Hin.
    apply ndindex_cons_inv in Hin as (i & idx' & -> & Hi & Hin).
    cbn [c_strides]. rewrite !flat_pos_cons, (IH idx' Hin).
    replace i with 0%nat by lia. lia.
  - destruct ok; cbn [andb]; [ | exact I].
    destruct (Z.eqb_spec st sd) as [->|Hne]; [ | exact I].
    destruct IH as [-> IH]. split; [rewrite size_of_cons; lia | ].
    intros idx Hin.
    apply ndindex_cons_inv in Hin as (i & idx' & -> & Hi & Hin).
    cbn [c_strides]. now rewrite !flat_pos_cons, (IH idx' Hin).
Qed.

(** X4: in a C-contiguous array the element at the [k]-th index, in
    row-major order, lies [k] elements after the first one; so it is in
    every array [as_c_contiguous] returns. *)
Theorem c_contiguous_flat_layout mem a :
  length (strides a) = length (shape a) ->
  (c_contiguous a = true ->
   forall (k : nat) (idx : list nat),
     ndindex (shape a) !! k = Some idx ->
     flat_pos (strides a) idx = Z.of_nat k) /\
  (forall (k : nat) (idx : list nat),
     ndindex (shape (as_c_contiguous mem a).2) !! k = Some idx ->
     flat_pos (strides (as_c_contiguous mem a).2) idx = Z.of_nat k).
Proof.
  intros Hlen.
  assert (Hflat : forall (shp : list nat) (k : nat) (idx : list nat),
            ndindex shp !! k = Some idx ->
            flat_pos (c_strides shp) idx = Z.of_nat k).
  { intros shp k idx Hk.
    pose proof (f_equal (fun l => l !! k) (flat_pos_ndindex shp)) as H.
    cbn beta in H. rewrite !list_lookup_fmap, Hk in H.
    rewrite lookup_seq_lt in H.
    - now injection H.
    - rewrite <- length_ndindex. now apply lookup_lt_Some in Hk. }
  assert (Hcontig : c_contiguous a = true ->
            forall (k : nat) (idx : list nat),
              ndindex (shape a) !! k = Some idx ->
              flat_pos (strides a) idx = Z.of_nat k).
  { intros Hc k idx Hk. unfold c_contiguous in Hc.
    pose proof (contig_scan_spec (shape a) (strides a) Hlen) as Hscan.
    destruct (foldr contig_step _ _) as [[sd ok]|].
    - subst ok. destruct Hscan as [_ Hscan].
      rewrite Hscan by now apply list_elem_of_lookup_2 in Hk.
      now apply Hflat.
    - apply lookup_lt_Some in Hk. rewrite length_ndindex in Hk. lia. }
  split; [exact Hcontig | ].
  unfold as_c_contiguous. destruct (c_contiguous a) eqn:Hc; cbn [negb snd].
  - now apply Hcontig.
  - cbn [copy_C snd shape strides]. apply Hflat.
Qed.

End LayoutFacts.

(** X4 on the transpose of the docstring's array, copied: the index
    (1, 1) is the fifth of six and lies at position 4. *)
Lemma c_contiguous_flat_layout_witness :
  length (strides doc_transpose) = length (shape doc_transpose) /\
  ndindex (shape (as_c_contiguous doc_mem doc_transpose).2) !! 4%nat
    = Some [1; 1]%nat /\
  flat_pos (strides (as_c_contiguous doc_mem doc_transpose).2) [1; 1]%nat = 4.
Proof.
  split; [reflexivity | split; [reflexivity | ]].
  apply (proj2 (c_contiguous_flat_layout doc_mem doc_transpose eq_refl)
           4%nat [1; 1]%nat).
  reflexivity.
Defined.

(** ** Grid Extractor: outcomes *)

Lemma regular_not_nan (coord : list float) :
  regular coord -> Forall (fun x => is_nan x = false) coord.
Proof.
  intros (step & Hs & Hclose).
  apply spacing_inv in Hs as [Hlen _].
  destruct coord as [|x0 [|x1 tl]]; simpl in Hlen; try lia.
  apply coords_not_nan; [discriminate | ].
  unfold allclose in Hclose. apply forallb_Forall_true in Hclose.
  eapply Forall_impl; [exact Hclose | ].
  intros d Hd. cbn beta in Hd. now apply isclose_not_nan in Hd.
Qed.

Lemma fold_fmin_not_nan (l : list float) (a : float) :
  is_nan a = false -> Forall (fun x => is_nan x = false) l ->
  is_nan (foldl fmin a l) = false.
Proof.
  intros Ha Hl. revert a Ha.
  induction Hl as [|y l Hy _ IH]; intros a Ha; [exact Ha | ].
  cbn [foldl]. apply IH. unfold fmin. now destruct (_ || _).
Qed.

Lemma fold_fmax_not_nan (l : list float) (a : float) :
  is_nan a = false -> Forall (fun x => is_nan x = false) l ->
  is_nan (foldl fmax a l) = false.
Proof.
  intros Ha Hl. revert a Ha.
  induction Hl as [|y l Hy _ IH]; intros a Ha; [exact Ha | ].
  cbn [foldl]. apply IH. unfold fmax. now destruct (_ || _).
Qed.

Lemma regular_summary_not_nan (coord : list float) (step lo hi : float) :
  regular coord ->
  spacing coord = Some step ->
  np_min coord = Return lo ->
  np_max coord = Return hi ->
  is_nan step = false /\ is_nan lo = false /\ is_nan hi = false.
Proof.
  intros Hreg Hs Hlo Hhi. pose proof (regular_not_nan coord Hreg) as Hnn.
  destruct Hreg as (step' & Hs' & Hclose).
  rewrite Hs in Hs'. injection Hs' as <-.
  split.
  - unfold spacing in Hs. destruct (coord_diffs coord) as [|d ds];
      [discriminate | ]. injection Hs as ->.
    cbn [allclose forallb] in Hclose.
    apply andb_true_iff in Hclose as [Hclose _].
    now apply isclose_not_nan in Hclose.
  - destruct coord as [|x0 tl]; [discriminate | ].
    cbn in Hlo, Hhi. injection Hlo as <-. injection Hhi as <-.
    inversion Hnn as [|x l Hx0 Htl]; subst.
    split; [now apply fold_fmin_not_nan | now apply fold_fmax_not_nan].
Qed.

Section GridOutcomes.
Context {A : Type}.
Implicit Types (mem : gmap nat (list A)) (grid : DataArray).

(** What an accepting run went through. *)
Lemma dataarray_to_matrix_accepts mem grid mem' (m : ndarray)
    (region inc : list float) :
  dataarray_to_matrix mem grid = Return (mem', (m, region, inc)) ->
  exists d1 d2 c1 c2 s1 lo1 hi1 s2 lo2 hi2,
    dims grid = [d1; d2] /\
    coords grid !! d1 = Some c1 /\ coords grid !! d2 = Some c2 /\
    regular c1 /\ regular c2 /\
    spacing c1 = Some s1 /\ np_min c1 = Return lo1 /\ np_max c1 = Return hi1 /\
    spacing c2 = Some s2 /\ np_min c2 = Return lo2 /\ np_max c2 = Return hi2 /\
    region = [lo2; hi2; lo1; hi1] /\ inc = [s2; s1] /\
    (mem', m) = as_c_contiguous mem (values grid).
Proof.
  intros Hret.
  destruct (dataarray_to_matrix_inv mem grid mem' m region inc Hret)
    as (d1 & d2 & c1 & c2 & Hd & Hc1 & Hc2 & Hl1 & Hl2).
  destruct (dataarray_to_matrix_2d mem grid d1 d2 c1 c2 Hd Hc1 Hc2 Hl1 Hl2)
    as (s1 & lo1 & hi1 & s2 & lo2 & hi2
        & Hs1 & Hlo1 & Hhi1 & Hs2 & Hlo2 & Hhi2 & Heq).
  exists d1, d2, c1, c2, s1, lo1, hi1, s2, lo2, hi2.
  rewrite Hret in Heq.
  destruct (allclose (coord_diffs c2) s2) eqn:Hclose2; [ | discriminate].
  destruct (allclose (coord_diffs c1) s1) eqn:Hclose1; [ | discriminate].
  cbn [negb] in Heq. injection Heq as -> -> -> ->.
  repeat split; try assumption.
  - now exists s1.
  - now exists s2.
  - now destruct (as_c_contiguous mem (values grid)).
Qed.

(** X5: the matrix of an accepted grid holds the values of the grid,
    index by index; the extraction changes no buffer that existed, and
    when the grid's values are already C-contiguous it returns them as
    they are, in the memory as it was. *)
Theorem dataarray_to_matrix_values mem grid mem' (m : ndarray)
    (region inc : list float) :
  dataarray_to_matrix mem grid = Return (mem', (m, region, inc)) ->
  valid mem (values grid) = true ->
  mem ⊆ mem' /\
  ravel mem' m = ravel mem (values grid) /\
  (c_contiguous (values grid) = true -> mem' = mem /\ m = values grid).
Proof.
  intros Hret Hvalid.
  destruct (dataarray_to_matrix_accepts mem grid mem' m region inc Hret)
    as (d1 & d2 & c1 & c2 & s1 & lo1 & hi1 & s2 & lo2 & hi2 & H).
  destruct H as (_ & _ & _ & _ & _ & _ & _ & _ & _ & _ & _ & _ & _ & Hm).
  pose proof (as_c_contiguous_extends mem (values grid)) as Hsub.
  pose proof (as_c_contiguous_ravel mem (values grid) Hvalid) as Hr.
  rewrite <- Hm in Hsub, Hr. cbn [fst snd] in Hsub, Hr.
  split; [exact Hsub | split; [exact Hr | ]].
  intros Hc. unfold as_c_contiguous in Hm. rewrite Hc in Hm. cbn [negb] in Hm.
  now injection Hm as -> ->.
Qed.



(** X8: a grid is accepted only if none of its coordinates is a NaN, and
    then no bound of the region and no increment is a NaN either. *)
Theorem dataarray_to_matrix_no_nan mem grid mem' (m : ndarray)
    (region inc : list float) :
  dataarray_to_matrix mem grid = Return (mem', (m, region, inc)) ->
  (forall (d : string) (c : list float),
     d ∈ dims grid -> coords grid !! d = Some c ->
     Forall (fun x => is_nan x = false) c) /\
  Forall (fun x => is_nan x = false) region /\
  Forall (fun x => is_nan x = false) inc.
Proof.
  intros Hret.
  destruct (dataarray_to_matrix_accepts mem grid mem' m region inc Hret)
    as (d1 & d2 & c1 & c2 & s1 & lo1 & hi1 & s2 & lo2 & hi2 & H).
  destruct H as (Hd & Hc1 & Hc2 & Hr1 & Hr2 & Hs1 & Hlo1 & Hhi1
                 & Hs2 & Hlo2 & Hhi2 & -> & -> & _).
  destruct (regular_summary_not_nan c1 s1 lo1 hi1 Hr1 Hs1 Hlo1 Hhi1)
    as (Hns1 & Hnlo1 & Hnhi1).
  destruct (regular_summary_not_nan c2 s2 lo2 hi2 Hr2 Hs2 Hlo2 Hhi2)
    as (Hns2 & Hnlo2 & Hnhi2).
  split; [ | split; repeat constructor; assumption].
  intros d c Hin Hc. rewrite Hd in Hin.
  apply elem_of_cons in Hin as [->|Hin].
  - rewrite Hc1 in Hc. injection Hc as <-. now apply regular_not_nan.
  - apply list_elem_of_singleton in Hin as ->.
    rewrite Hc2 in Hc. injection Hc as <-. now apply regular_not_nan.
Qed.

End GridOutcomes.

(** X5 on a small grid held column by column: the values are copied. *)
Lemma small_grid_accepted :
  dataarray_to_matrix small_mem small_grid =
    Return ((as_c_contiguous small_mem small_vals).1,
            ((as_c_contiguous small_mem small_vals).2,
             [10; 14; 0; 2]%float, [2; 1]%float)).
Proof.
  rewrite (dataarray_to_matrix_loop small_mem small_grid "lat" "lon" eq_refl).
  assert (H : extract_loop small_grid ["lon"; "lat"] [] [] =
              Return ([10; 14; 0; 2]%float, [2; 1]%float))
    by (vm_compute; reflexivity).
  now rewrite H.
Qed.

Lemma dataarray_to_matrix_values_witness :
  small_mem ⊆ (as_c_contiguous small_mem small_vals).1 /\
  ravel (as_c_contiguous small_mem small_vals).1
        (as_c_contiguous small_mem small_vals).2
    = ravel small_mem (values small_grid) /\
  (c_contiguous (values small_grid) = true ->
   (as_c_contiguous small_mem small_vals).1 = small_mem /\
   (as_c_contiguous small_mem small_vals).2 = values small_grid).
Proof.
  exact (dataarray_to_matrix_values small_mem small_grid _ _ _ _
           small_grid_accepted eq_refl).
Defined.



(** X8 on the global relief grid. *)
Lemma dataarray_to_matrix_no_nan_witness :
  (forall (d : string) (c : list float),
     d ∈ dims (earth_relief relief_vals) ->
     coords (earth_relief relief_vals) !! d = Some c ->
     Forall (fun x => is_nan x = false) c) /\
  Forall (fun x => is_nan x = false) [-180; 180; -90; 90]%float /\
  Forall (fun x => is_nan x = false) [1; 1]%float.
Proof.
  exact (dataarray_to_matrix_no_nan relief_mem (earth_relief relief_vals)
           _ _ _ _ relief_accepted).
Defined.

(** ** Locating and loading: outcomes *)

Lemma rev_app_spec (s t : string) :
  String.rev_app s t = String.rev_app s EmptyString +:+ t.
Proof.
  revert t. induction s as [|c s IH]; intros t; [reflexivity | ].
  cbn [String.rev_app]. rewrite (IH (String c t)), (IH (String c EmptyString)).
  now rewrite str_app_assoc.
Qed.

Lemma rev_app_append (a b t : string) :
  String.rev_app (a +:+ b) t = String.rev_app b (String.rev_app a t).
Proof.
  revert t. induction a as [|c a IH]; intros t; [reflexivity | ].
  rewrite str_app_cons. cbn [String.rev_app]. apply IH.
Qed.

Lemma endswith_app (a b : string) : endswith (a +:+ b) b = true.
Proof.
  unfold endswith, String.rev. rewrite rev_app_append.
  rewrite (rev_app_spec b (String.rev_app a EmptyString)).
  apply prefix_app.
Qed.

Lemma endswith_refl (b : string) : endswith b b = true.
Proof. exact (endswith_app EmptyString b). Qed.

(** Whatever the directory, the joined path ends with the name. *)
Lemma os_path_join_endswith (a b : string) :
  endswith (os_path_join a b) b = true.
Proof.
  unfold os_path_join. destruct (startswith b "/"); [apply endswith_refl | ].
  destruct (_ || _); [apply endswith_app | ].
  rewrite <- str_app_assoc. apply endswith_app.
Qed.

(** X9: for a given identifier the resolver succeeds exactly when the
    identifier starts with [linux], and then gives [so], or is [darwin]
    itself, and then gives [dylib]. *)
Theorem clib_extension_success (w : World) (os_name ext : string) :
  clib_extension w (Some os_name) = Return ext <->
  (startswith os_name "linux" = true /\ ext = "so") \/
  (os_name = "darwin" /\ ext = "dylib").
Proof.
  unfold clib_extension. split.
  - destruct (startswith os_name "linux"); [intros [= <-]; now left | ].
    destruct (String.eqb_spec os_name "darwin") as [->|Hne];
      [intros [= <-]; now right | discriminate].
  - intros [[-> ->]|[-> ->]]; reflexivity.
Qed.

(** X10: called without an identifier the resolver tests [sys.platform],
    and fails exactly when that neither starts with [linux] nor is
    [darwin]; the error then names the platform that was tested. *)
Theorem clib_extension_default_failure (w : World) :
  (forall e : exn,
     clib_extension w None = Raise e ->
     e = GMTOSError ("Operating system " +:+ dquote +:+ sys_platform w
                     +:+ dquote +:+ " not supported.") /\
     str_contains (str_exn e) (sys_platform w) = true) /\
  ((exists e : exn, clib_extension w None = Raise e) <->
   startswith (sys_platform w) "linux" = false /\ sys_platform w <> "darwin").
Proof.
  unfold clib_extension. split.
  - intros e.
    destruct (startswith (sys_platform w) "linux"); [discriminate | ].
    destruct (String.eqb (sys_platform w) "darwin"); [discriminate | ].
    intros [= <-]. split; [reflexivity | ]. cbn [str_exn].
    rewrite <- (str_app_assoc "Operating system " dquote).
    apply str_contains_app.
  - destruct (startswith (sys_platform w) "linux").
    { split; [intros [e He]; discriminate | intros [Hf _]; discriminate]. }
    destruct (String.eqb_spec (sys_platform w) "darwin") as [Heq|Hne].
    + split; [intros [e He]; discriminate | intros [_ Hd]; contradiction].
    + split; [now split | eauto].
Qed.

(** X11: the environment has no part in whether the locator fails: it
    fails exactly when the resolver does, with the resolver's error; and
    a path it returns always ends with the file name [libgmt.ext]. *)
Theorem get_clib_path_outcomes (w : World) (env : option (gmap string string)) :
  (forall e : exn,
     get_clib_path w env = Raise e <-> clib_extension w None = Raise e) /\
  (forall libpath : string,
     get_clib_path w env = Return libpath ->
     exists ext : string,
       clib_extension w None = Return ext /\
       endswith libpath ("libgmt." +:+ ext) = true).
Proof.
  unfold get_clib_path.
  destruct (clib_extension w None) as [ext|e0]; cbn [mbind result_bind];
    unfold mbind, result_bind; split.
  - intros e. split; [ | discriminate].
    now destruct (_ !! "GMT_LIBRARY_PATH").
  - intros libpath Hret. exists ext. split; [reflexivity | ].
    destruct (_ !! "GMT_LIBRARY_PATH") as [dir|]; injection Hret as <-.
    + apply os_path_join_endswith.
    + apply endswith_refl.
  - intros e. reflexivity.
  - discriminate.
Qed.

(** X12: how the value of [GMT_LIBRARY_PATH] enters the path: an empty
    value gives the bare file name, as if the variable were unset; a value
    that ends with a slash is followed by the file name at once; any other
    value is followed by one slash and the file name. *)
Theorem get_clib_path_override (w : World) (env : gmap string string)
    (ext : string) :
  clib_extension w None = Return ext ->
  (env !! "GMT_LIBRARY_PATH" = Some EmptyString ->
   get_clib_path w (Some env) = Return ("libgmt." +:+ ext)) /\
  (forall dir : string,
     env !! "GMT_LIBRARY_PATH" = Some dir ->
     endswith dir "/" = true ->
     get_clib_path w (Some env) = Return (dir +:+ "libgmt." +:+ ext)) /\
  (forall dir : string,
     env !! "GMT_LIBRARY_PATH" = Some dir ->
     dir <> EmptyString ->
     endswith dir "/" = false ->
     get_clib_path w (Some env) = Return (dir +:+ "/libgmt." +:+ ext)).
Proof.
  intros Hext. unfold get_clib_path. rewrite Hext.
  unfold mbind, result_bind.
  change (str_join "." ["libgmt"; ext]) with ("libgmt." +:+ ext).
  split; [ | split].
  - intros ->. reflexivity.
  - intros dir -> Hslash.
    now rewrite (os_path_join_slash dir ("libgmt." +:+ ext) eq_refl Hslash).
  - intros dir -> Hne Hslash.
    now rewrite (os_path_join_plain dir ("libgmt." +:+ ext) eq_refl Hne Hslash).
Qed.

Lemma get_clib_path_override_witness :
  get_clib_path linux_host (Some {[ "GMT_LIBRARY_PATH" := "/usr/lib/" ]}) =
    Return "/usr/lib/libgmt.so".
Proof.
  apply (proj1 (proj2 (get_clib_path_override linux_host
                         {[ "GMT_LIBRARY_PATH" := "/usr/lib/" ]} "so" eq_refl))
           "/usr/lib/"); reflexivity.
Defined.

(** X13: the loader returns a handle exactly when the locator gives a
    path, opening that path gives this handle, and the handle exposes the
    four required entry points. *)
Theorem load_libgmt_success (catches : exn -> bool) (w : World)
    (env : option (gmap string string)) (lib : CDLL) :
  load_libgmt catches w env = Return lib <->
  exists libpath : string,
    get_clib_path w env = Return libpath /\
    dlopen w libpath = inr lib /\
    Forall (present lib) functions.
Proof.
  split.
  - intros Hret. destruct (get_clib_path w env) as [libpath|e] eqn:Hpath.
    2:{ unfold load_libgmt in Hret. rewrite Hpath in Hret. discriminate. }
    rewrite (load_libgmt_unfold _ _ _ _ Hpath) in Hret. exists libpath.
    destruct (dlopen w libpath) as [errtext|lib'].
    { now destruct (catches _). }
    destruct (check_libgmt lib') as [[]|err] eqn:Hchk.
    + injection Hret as <-. repeat split. now apply check_loop_all.
    + now destruct (catches _).
  - intros (libpath & Hpath & Hopen & Hall).
    rewrite (load_libgmt_unfold _ _ _ _ Hpath), Hopen.
    apply check_loop_all in Hall. unfold check_libgmt. now rewrite Hall.
Qed.

(** X14: on a platform the resolver does not support the loader fails
    with the resolver's error, whatever the environment, the loader of
    the system and the exceptions that [except OSError] catches. *)
Theorem load_libgmt_unsupported_platform (catches : exn -> bool) (w : World)
    (env : option (gmap string string)) (e : exn) :
  clib_extension w None = Raise e ->
  load_libgmt catches w env = Raise e /\
  e = GMTOSError ("Operating system " +:+ dquote +:+ sys_platform w
                  +:+ dquote +:+ " not supported.").
Proof.
  intros Herr. split.
  - unfold load_libgmt, get_clib_path. now rewrite Herr.
  - now apply (proj1 (clib_extension_default_failure w)).
Qed.

Lemma load_libgmt_unsupported_platform_witness :
  load_libgmt isinstance_OSError windows_host None =
    Raise (GMTOSError ("Operating system " +:+ dquote +:+ "win32" +:+ dquote
                       +:+ " not supported.")) /\
  GMTOSError ("Operating system " +:+ dquote +:+ "win32" +:+ dquote
              +:+ " not supported.")
  = GMTOSError ("Operating system " +:+ dquote +:+ sys_platform windows_host
                +:+ dquote +:+ " not supported.").
Proof.
  exact (load_libgmt_unsupported_platform isinstance_OSError windows_host None
           _ eq_refl).
Defined.

(** X15: when the opened library lacks a required entry point, the
    loader raises the validator's error as it is if [except OSError] does
    not catch it, and otherwise the library-not-found error whose message
    ends with the validator's. *)
Theorem load_libgmt_validation_failure (catches : exn -> bool) (w : World)
    (env : option (gmap string string)) (libpath : string) (lib : CDLL)
    (pre post : list string) (func : string) :
  get_clib_path w env = Return libpath ->
  dlopen w libpath = inr lib ->
  functions = pre ++ func :: post ->
  Forall (present lib) pre ->
  hasattr lib ("GMT_" +:+ func) = false ->
  let err := GMTCLibError ("Error loading libgmt. Couldn't access function GMT_"
                           +:+ func +:+ ".") in
  load_libgmt catches w env =
    (if catches err
     then Raise (GMTCLibNotFoundError
                   ("Couldn't find the GMT shared library '" +:+ libpath +:+ "'."
                    +:+ newline +:+ "Original error message:" +:+ newline
                    +:+ str_exn err))
     else Raise err).
Proof.
  intros Hpath Hopen Hsplit Hpre Hmiss err.
  rewrite (load_libgmt_unfold _ _ _ _ Hpath), Hopen.
  unfold check_libgmt. rewrite Hsplit.
  rewrite (check_loop_first lib pre post func Hpre Hmiss).
  change (GMTCLibError (missing_msg func)) with err.
  destruct (catches err); [ | reflexivity].
  now rewrite not_found_msg_text.
Qed.

Lemma load_libgmt_validation_failure_witness :
  load_libgmt isinstance_OSError stale_host None =
    Raise (GMTCLibError
             "Error loading libgmt. Couldn't access function GMT_Get_Enum.").
Proof.
  apply (load_libgmt_validation_failure isinstance_OSError stale_host None
           "libgmt.so"
           {| exports := {[ "GMT_Create_Session"; "GMT_Call_Module" ]} |}
           ["Create_Session"] ["Call_Module"; "Destroy_Session"] "Get_Enum").
  - reflexivity.
  - reflexivity.
  - reflexivity.
  - constructor; [vm_compute; reflexivity | constructor].
  - vm_compute; reflexivity.
Defined.

(** X16: symbols beyond the required ones never matter to the validator:
    a library that exports all that an accepted library exports is
    accepted too. *)
Theorem check_libgmt_monotone (lib lib' : CDLL) :
  exports lib ⊆ exports lib' ->
  check_libgmt lib = Return tt ->
  check_libgmt lib' = Return tt.
Proof.
  intros Hsub Hok. apply check_loop_all. apply check_loop_all in Hok.
  eapply Forall_impl; [exact Hok | ].
  intros func Hf. unfold present, hasattr in *.
  apply bool_decide_eq_true. apply bool_decide_eq_true in Hf.
  now apply Hsub.
Qed.

Lemma check_libgmt_monotone_witness :
  check_libgmt {| exports := libgmt_symbols |} = Return tt.
Proof.
  apply (check_libgmt_monotone
           {| exports := {[ "GMT_Create_Session"; "GMT_Get_Enum";
                            "GMT_Call_Module"; "GMT_Destroy_Session" ]} |}
           {| exports := libgmt_symbols |}).
  - apply (bool_decide_unpack _). vm_compute. exact I.
  - vm_compute. reflexivity.
Defined.

(** X9 to X13 on the example hosts. *)
Lemma clib_extension_success_witness :
  clib_extension linux_host (Some "linux2") = Return "so".
Proof.
  apply (proj2 (clib_extension_success linux_host "linux2" "so")).
  left. split; reflexivity.
Defined.

Lemma clib_extension_default_failure_witness :
  GMTOSError ("Operating system " +:+ dquote +:+ "win32" +:+ dquote
              +:+ " not supported.")
  = GMTOSError ("Operating system " +:+ dquote +:+ sys_platform windows_host
                +:+ dquote +:+ " not supported.") /\
  str_contains
    (str_exn (GMTOSError ("Operating system " +:+ dquote +:+ "win32"
                          +:+ dquote +:+ " not supported.")))
    (sys_platform windows_host) = true.
Proof.
  exact (proj1 (clib_extension_default_failure windows_host) _ eq_refl).
Defined.

Lemma get_clib_path_outcomes_witness :
  exists ext : string,
    clib_extension mac_host None = Return ext /\
    endswith "/opt/gmt/libgmt.dylib" ("libgmt." +:+ ext) = true.
Proof.
  exact (proj2 (get_clib_path_outcomes mac_host None)
           "/opt/gmt/libgmt.dylib" eq_refl).
Defined.

Lemma load_libgmt_success_witness :
  load_libgmt isinstance_OSError mac_host None =
    Return {| exports := libgmt_symbols |}.
Proof.
  apply (proj2 (load_libgmt_success isinstance_OSError mac_host None
                  {| exports := libgmt_symbols |})).
  exists "/opt/gmt/libgmt.dylib". split; [reflexivity | split; [reflexivity | ]].
  repeat constructor; vm_compute; reflexivity.
Defined.

(** ** Keyword arguments as ctypes arrays: facts *)

Lemma c_int_set_range (z : Z) : - 2 ^ 31 <= c_int_set z < 2 ^ 31.
Proof.
  unfold c_int_set. pose proof (Z.mod_pos_bound (z + 2 ^ 31) (2 ^ 32)). lia.
Qed.

Lemma c_int_set_fits (z : Z) : - 2 ^ 31 <= z < 2 ^ 31 -> c_int_set z = z.
Proof. intros Hz. unfold c_int_set. rewrite Z.mod_small; lia. Qed.

Section CtypesFacts.
Context {P A : Type}.

(** X17: [kwargs_to_ctypes_array] gives [None], and no error, exactly
    when the argument is not among the keyword arguments; a value that
    fits makes an array of the length of the type, the items of the value
    first, each as the setter of the C type converts it, and zeros after
    them; a value longer than the type is refused with [IndexError]. *)
Theorem kwargs_to_ctypes_array_spec (argument : string)
    (kwargs : gmap string (list P)) (dtype : @array_type P A) :
  (kwargs_to_ctypes_array argument kwargs dtype = Return None
   <-> kwargs !! argument = None) /\
  (forall value : list P,
     kwargs !! argument = Some value ->
     (length value <= arr_length dtype)%nat ->
     exists arr : list A,
       kwargs_to_ctypes_array argument kwargs dtype = Return (Some arr) /\
       length arr = arr_length dtype /\
       take (length value) arr = elt_set dtype <$> value /\
       drop (length value) arr =
         replicate (arr_length dtype - length value) (elt_zero dtype)) /\
  (forall value : list P,
     kwargs !! argument = Some value ->
     (arr_length dtype < length value)%nat ->
     kwargs_to_ctypes_array argument kwargs dtype =
       Raise (IndexError "invalid index")).
Proof.
  unfold kwargs_to_ctypes_array, array_new. split; [ | split].
  - destruct (kwargs !! argument) as [value|]; [ | now split].
    split; [ | discriminate].
    destruct (length value <=? arr_length dtype)%nat; discriminate.
  - intros value -> Hfit.
    destruct (Nat.leb_spec (length value) (arr_length dtype)); [ | lia].
    eexists. split; [reflexivity | ].
    assert (Hl : length (elt_set dtype <$> value) = length value)
      by apply length_fmap.
    split; [rewrite length_app, length_replicate, Hl; lia | ].
    split; [rewrite <- Hl; apply take_app_length | ].
    rewrite <- Hl at 1. apply drop_app_length.
  - intros value -> Hlong.
    now destruct (Nat.leb_spec (length value) (arr_length dtype)); [lia | ].
Qed.

End CtypesFacts.

(** X17 on [ct.c_int*2]: an integer beyond 32 bits is stored modulo
    [2^32]. *)
Lemma kwargs_to_ctypes_array_spec_witness :
  exists arr : list Z,
    kwargs_to_ctypes_array "bla" {[ "bla" := [2 ^ 31; -1; 10] ]}
      (c_int_array 4) = Return (Some arr) /\
    length arr = 4%nat /\
    take 3 arr = [- 2 ^ 31; -1; 10] /\
    drop 3 arr = [0].
Proof.
  apply (proj1 (proj2 (kwargs_to_ctypes_array_spec "bla"
                         {[ "bla" := [2 ^ 31; -1; 10] ]}
                         (c_int_array 4)))
           [2 ^ 31; -1; 10]).
  - reflexivity.
  - cbn. lia.
Defined.

(** The call of the docstring, and an integer that does not fit. *)
Example kwargs_to_ctypes_array_doc :
  kwargs_to_ctypes_array "bla" {[ "bla" := [10; 10] ]} (c_int_array 2)
    = Return (Some [10; 10]) /\
  kwargs_to_ctypes_array "swallow" {[ "foo" := [20; 30] ]} (c_int_array 2)
    = Return None /\
  kwargs_to_ctypes_array "bla" {[ "bla" := [2 ^ 31; -1] ]} (c_int_array 2)
    = Return (Some [-2147483648; -1]) /\
  kwargs_to_ctypes_array "bla" {[ "bla" := [1; 2; 3] ]} (c_int_array 2)
    = Raise (IndexError "invalid index").
Proof. repeat split; vm_compute; reflexivity. Qed.

(** ** Reporting on the loaded library: facts *)

Lemma str_length_app (s t : string) :
  String.length (s +:+ t) = (String.length s + String.length t)%nat.
Proof.
  induction s as [|c s IH]; [reflexivity | ].
  rewrite str_app_cons. cbn [String.length]. now rewrite IH.
Qed.

Lemma str_repeat_length (c : ascii) (n : Z) :
  String.length (str_repeat (String c EmptyString) n) = Z.to_nat n.
Proof.
  unfold str_repeat. induction (Z.to_nat n) as [|k IH]; [reflexivity | ].
  rewrite Nat.iter_succ, str_length_app, IH. reflexivity.
Qed.

(** X18: the header line fills the terminal: it is as long as the
    terminal is wide, or 25 characters when the terminal is narrower than
    that; the rule on the right of the title is as long as the rule on
    the left, or one longer. *)
Theorem info_header_width (columns : Z) :
  Z.of_nat (String.length (info_header columns)) = Z.max columns 25 /\
  exists left right : nat,
    info_header columns =
      str_repeat "=" (Z.of_nat left) +:+ " Currently loaded libgmt "
      +:+ str_repeat "=" (Z.of_nat right) /\
    (left <= right <= left + 1)%nat.
Proof.
  unfold info_header.
  change (Z.of_nat (String.length "Currently loaded libgmt")) with 23.
  set (l := (columns - 23 - 2) `div` 2).
  set (r := l + (columns - (2 * l + 23 + 2))).
  assert (Hr : r = l \/ r = l + 1).
  { subst r l. pose proof (Z.div_mod (columns - 23 - 2) 2 ltac:(lia)) as Hdm.
    pose proof (Z.mod_pos_bound (columns - 23 - 2) 2 ltac:(lia)). lia. }
  assert (Hl : 0 <= l <-> 25 <= columns).
  { subst l. pose proof (Z.div_mod (columns - 23 - 2) 2 ltac:(lia)) as Hdm.
    pose proof (Z.mod_pos_bound (columns - 23 - 2) 2 ltac:(lia)). lia. }
  assert (Hsum : l + r = columns - 25) by (subst r; lia).
  assert (Hjoin : forall a b : string,
            str_join " " [a; "Currently loaded libgmt"; b] =
            a +:+ " Currently loaded libgmt " +:+ b) by reflexivity.
  rewrite Hjoin. split.
  - rewrite !str_length_app, !str_repeat_length.
    change (String.length " Currently loaded libgmt ") with 25%nat. lia.
  - exists (Z.to_nat l), (Z.to_nat r). split; [ | lia].
    unfold str_repeat. now rewrite !Nat2Z.id.
Qed.

Lemma info_loop_spec (info : gmap string string) (keys lines : list string) :
  (forall key : string, key ∈ keys -> is_Some (info !! key)) ->
  info_loop info keys lines =
    Return (lines ++ ((fun key => key +:+ ": " +:+ info !!! key) <$> keys)).
Proof.
  revert lines. induction keys as [|key keys IH]; intros lines Hkeys.
  { cbn. now rewrite app_nil_r. }
  destruct (Hkeys key) as [v Hv]; [left | ].
  cbn [info_loop]. rewrite Hv. unfold mbind, result_bind.
  rewrite IH by (intros k Hk; apply Hkeys; now right).
  rewrite <- app_assoc. cbn [fmap list_fmap app].
  now rewrite (lookup_total_correct info key v Hv).
Qed.

(** X19: [print_libgmt_info] never fails on the dictionary it reads; it
    prints the header line and then one line [key: value] for each entry
    of the dictionary, each entry once, in ascending order of the keys. *)
Theorem print_libgmt_info_lines (columns : Z) (info : gmap string string) :
  exists entries : list (string * string),
    entries ≡ₚ map_to_list info /\
    StronglySorted (fun a b => String.le a.1 b.1) entries /\
    print_libgmt_info columns info =
      Return (str_join newline
                (info_header columns
                 :: ((fun kv => kv.1 +:+ ": " +:+ kv.2) <$> entries))).
Proof.
  set (keys := sorted (map_to_list info).*1).
  assert (Hperm : keys ≡ₚ (map_to_list info).*1)
    by apply merge_sort_Permutation.
  assert (Hsome : forall key : string, key ∈ keys -> is_Some (info !! key)).
  { intros key Hin. rewrite Hperm in Hin.
    apply list_elem_of_fmap in Hin as ([k v] & -> & Hin).
    apply elem_of_map_to_list in Hin. cbn. eauto. }
  exists ((fun key => (key, info !!! key)) <$> keys). split; [ | split].
  - assert (Heq : (fun key => (key, info !!! key)) <$> (map_to_list info).*1
                  = map_to_list info).
    { rewrite <- list_fmap_compose.
      rewrite <- (list_fmap_id (map_to_list info)) at 2.
      apply list_fmap_ext. intros i [k v] Hkv. cbn.
      apply list_elem_of_lookup_2, elem_of_map_to_list in Hkv.
      now rewrite (lookup_total_correct info k v Hkv). }
    now rewrite Hperm, Heq.
  - apply (StronglySorted_fmap _ String.le); [now intros x y | ].
    apply StronglySorted_merge_sort; apply _.
  - unfold print_libgmt_info. fold keys.
    rewrite (info_loop_spec info keys _ Hsome). unfold mbind, result_bind.
    now rewrite <- list_fmap_compose.
Qed.

(** X20: [test] always ends the arguments of pytest with [--pyargs gmt];
    before them come, in this order and each only when its option is
    set, [-vv], the two coverage flags, [--doctest-modules] and [--mpl]. *)
Theorem test_args_flags (doctest verbose coverage figures : bool) :
  let args := test_args doctest verbose coverage figures in
  args `sublist_of`
    ["-vv"; "--cov=gmt"; "--cov-report=term-missing"; "--doctest-modules";
     "--mpl"; "--pyargs"; "gmt"] /\
  drop (length args - 2) args = ["--pyargs"; "gmt"] /\
  bool_decide ("-vv" ∈ args) = verbose /\
  bool_decide ("--cov=gmt" ∈ args) = coverage /\
  bool_decide ("--cov-report=term-missing" ∈ args) = coverage /\
  bool_decide ("--doctest-modules" ∈ args) = doctest /\
  bool_decide ("--mpl" ∈ args) = figures.
Proof.
  destruct doctest, verbose, coverage, figures; cbv zeta;
    (split;
     [vm_compute;
      repeat first [apply sublist_nil | apply sublist_skip | apply sublist_cons]
     | ]);
    repeat split; vm_compute; reflexivity.
Qed.

(** ** Grid Extractor: what the metadata depend on *)

Lemma extract_loop_coords (grid grid' : DataArray) (ds : list string)
    (region inc : list float) :
  coords grid = coords grid' ->
  extract_loop grid ds region inc = extract_loop grid' ds region inc.
Proof.
  intros Hc. revert region inc.
  induction ds as [|dim ds IH]; intros region inc; [reflexivity | ].
  cbn [extract_loop]. unfold coord_values. rewrite <- Hc.
  destruct (coords grid !! dim) as [coord|]; [ | reflexivity].
  unfold mbind, result_bind.
  destruct (item0 (coord_diffs coord)) as [step|e]; [ | reflexivity].
  destruct (negb (allclose (coord_diffs coord) step)); [reflexivity | ].
  destruct (np_min coord) as [lo|e]; [ | reflexivity].
  destruct (np_max coord) as [hi|e]; [ | reflexivity].
  apply IH.
Qed.

Section GridMetadata.
Context {A B : Type}.

(** X21: the region, the increment and the error of the extractor are
    read from the dimensions and the coordinates alone: two grids that
    agree on these fail alike or are accepted alike, with the same region
    and increment, whatever their values and the memory that holds
    them. *)
Theorem dataarray_to_matrix_metadata (mem : gmap nat (list A))
    (mem' : gmap nat (list B)) (grid grid' : DataArray) :
  dims grid = dims grid' ->
  coords grid = coords grid' ->
  (forall e : exn,
     dataarray_to_matrix mem grid = Raise e <->
     dataarray_to_matrix mem' grid' = Raise e) /\
  (forall (mem1 : gmap nat (list A)) (m : ndarray) (region inc : list float),
     dataarray_to_matrix mem grid = Return (mem1, (m, region, inc)) ->
     dataarray_to_matrix mem' grid' =
       Return ((as_c_contiguous mem' (values grid')).1,
               ((as_c_contiguous mem' (values grid')).2, region, inc))).
Proof.
  intros Hd Hc. unfold dataarray_to_matrix. rewrite <- Hd.
  destruct (negb (length (dims grid) =? 2)%nat).
  { split; [intros e; split; intros [= <-]; reflexivity | discriminate]. }
  rewrite <- (extract_loop_coords grid grid' _ [] [] Hc).
  destruct (extract_loop grid (rev (dims grid)) [] []) as [[region inc]|e0];
    unfold mbind, result_bind.
  - destruct (as_c_contiguous mem (values grid)) as [mem1 m1].
    destruct (as_c_contiguous mem' (values grid')) as [mem2 m2].
    split; [split; discriminate | ].
    intros mem3 m region' inc' [= _ _ <- <-]. reflexivity.
  - split; [intros e; split; intros [= <-]; reflexivity | discriminate].
Qed.

End GridMetadata.

Section GridTranspose.
Context {A : Type}.

(** X22: the extractor does not look at the names of the dimensions: if a
    grid is accepted, so is the grid with its two dimensions in the other
    order, and the two halves of its region and the two entries of its
    increment are those of the first grid exchanged. *)
Theorem dataarray_to_matrix_swapped_dims (mem mem' : gmap nat (list A))
    (grid grid' : DataArray) (d1 d2 : string) (m : ndarray)
    (w e s n ix iy : float) :
  dims grid = [d1; d2] ->
  dims grid' = [d2; d1] ->
  coords grid' = coords grid ->
  dataarray_to_matrix mem grid = Return (mem', (m, [w; e; s; n], [ix; iy])) ->
  dataarray_to_matrix mem grid' =
    Return ((as_c_contiguous mem (values grid')).1,
            ((as_c_contiguous mem (values grid')).2, [s; n; w; e], [iy; ix])).
Proof.
  intros Hd Hd' Hc Hret.
  destruct (dataarray_to_matrix_accepts mem grid mem' m _ _ Hret)
    as (e1 & e2 & c1 & c2 & s1 & lo1 & hi1 & s2 & lo2 & hi2 & H).
  destruct H as (Hdims & Hc1 & Hc2 & Hr1 & Hr2 & Hs1 & Hlo1 & Hhi1
                 & Hs2 & Hlo2 & Hhi2 & Hregion & Hinc & _).
  rewrite Hd in Hdims. injection Hdims as <- <-.
  injection Hregion as -> -> -> ->. injection Hinc as -> ->.
  rewrite <- Hc in Hc1, Hc2.
  destruct (dataarray_to_matrix_2d mem grid' d2 d1 c2 c1 Hd' Hc2 Hc1
              (regular_length c2 Hr2) (regular_length c1 Hr1))
    as (t2 & l2 & h2 & t1 & l1 & h1
        & Ht2 & Hl2 & Hh2 & Ht1 & Hl1 & Hh1 & Heq).
  rewrite Hs2 in Ht2. injection Ht2 as <-.
  rewrite Hs1 in Ht1. injection Ht1 as <-.
  rewrite Hlo2 in Hl2. injection Hl2 as <-.
  rewrite Hhi2 in Hh2. injection Hh2 as <-.
  rewrite Hlo1 in Hl1. injection Hl1 as <-.
  rewrite Hhi1 in Hh1. injection Hh1 as <-.
  destruct Hr1 as (s1' & Hs1' & Hclose1). rewrite Hs1 in Hs1'.
  injection Hs1' as <-.
  destruct Hr2 as (s2' & Hs2' & Hclose2). rewrite Hs2 in Hs2'.
  injection Hs2' as <-.
  now rewrite Hclose1, Hclose2 in Heq.
Qed.

End GridTranspose.

(** X21 on two grids with the coordinates of the global relief grid, one
    of floats and one of integers. *)
Lemma dataarray_to_matrix_metadata_witness :
  dataarray_to_matrix doc_mem (earth_relief doc_data) =
    Return ((as_c_contiguous doc_mem doc_data).1,
            ((as_c_contiguous doc_mem doc_data).2,
             [-180; 180; -90; 90]%float, [1; 1]%float)).
Proof.
  exact (proj2 (dataarray_to_matrix_metadata relief_mem doc_mem
                  (earth_relief relief_vals) (earth_relief doc_data)
                  eq_refl eq_refl)
           _ _ _ _ relief_accepted).
Defined.

(** X22 on the small grid and its transpose. *)
Lemma dataarray_to_matrix_swapped_dims_witness :
  dataarray_to_matrix small_mem small_grid_T =
    Return ((as_c_contiguous small_mem (values small_grid_T)).1,
            ((as_c_contiguous small_mem (values small_grid_T)).2,
             [0; 2; 10; 14]%float, [1; 2]%float)).
Proof.
  exact (dataarray_to_matrix_swapped_dims small_mem _ small_grid small_grid_T
           "lat" "lon" _ _ _ _ _ _ _ eq_refl eq_refl eq_refl
           small_grid_accepted).
Defined.
